(** * Batch pipelines of the utility scripts

    A shallow embedding of the two batch-processing scripts of the repository
    and the properties of their enumerate / execute / aggregate pipeline:

    - [bulk_image_extension_converter/ex.py]  (module [Converter]),
    - [image_link_downloader/main.py]         (module [Downloader]).

    The imaging library, the HTTP client, the spreadsheet reader and the URL
    parser are collaborators of the scripts: they appear as fields of a record
    of externals which every definition takes as an argument.  Python
    exceptions are values of [Py.result]; the file system is a finite map from
    paths to contents which every operation threads explicitly. *)

From Stdlib Require Import ZArith Lia Ascii Permutation Sorted.
From stdpp Require Import base option list strings gmap pretty.

Local Open Scope Z_scope.

(** ** Python values and string methods *)

Module Py.

(** Exceptions deriving from [Exception].  The downloader handles
    [requests.exceptions.RequestException] apart from the rest. *)
Inductive exn :=
| RequestException (msg : string)
| Exception (msg : string).

(** [str(e)] *)
Definition str (e : exn) : string :=
  match e with RequestException m => m | Exception m => m end.

(** The outcome of evaluating a Python expression. *)
Inductive result (A : Type) :=
| Return (a : A)
| Raise (e : exn).
Arguments Return {A} a.
Arguments Raise {A} e.

Definition bind {A B} (r : result A) (k : A → result B) : result B :=
  match r with Return a => k a | Raise e => Raise e end.

(** A file content, and a chunk of a streamed body. *)
Abbreviation bytes := (list Byte.byte).

(** [c in s] for a character [c]. *)
Fixpoint char_in (c : ascii) (s : string) : bool :=
  match s with
  | EmptyString => false
  | String d s' => Ascii.eqb c d || char_in c s'
  end.

(** [sub in s] *)
Fixpoint contains (sub s : string) : bool :=
  String.prefix sub s ||
  match s with
  | EmptyString => false
  | String _ s' => contains sub s'
  end.

(** [s.startswith(p)] *)
Definition startswith (s p : string) : bool := String.prefix p s.

(** [s.endswith(p)] *)
Definition endswith (s p : string) : bool :=
  String.prefix (String.rev p) (String.rev s).

(** [s.split(sep)[0]] for a one-character separator. *)
Fixpoint before_first (sep : ascii) (s : string) : string :=
  match s with
  | EmptyString => EmptyString
  | String c s' => if Ascii.eqb c sep then EmptyString
                   else String c (before_first sep s')
  end.

(** [s.split(sep, 1)[1]], or [None] when [sep] does not occur. *)
Fixpoint after_first (sep : ascii) (s : string) : option string :=
  match s with
  | EmptyString => None
  | String c s' => if Ascii.eqb c sep then Some s' else after_first sep s'
  end.

(** [s[s.rfind(sep) + 1:]] *)
Fixpoint after_last (sep : ascii) (s : string) : string :=
  match s with
  | EmptyString => EmptyString
  | String c s' => if char_in sep s' then after_last sep s'
                   else if Ascii.eqb c sep then s' else s
  end.

(** [s.replace(a, b)] for characters. *)
Fixpoint replace (a b : ascii) (s : string) : string :=
  match s with
  | EmptyString => EmptyString
  | String c s' => String (if Ascii.eqb c a then b else c) (replace a b s')
  end.

(** [''.join(c for c in s if keep(c))] *)
Fixpoint filter_chars (keep : ascii → bool) (s : string) : string :=
  match s with
  | EmptyString => EmptyString
  | String c s' => if keep c then String c (filter_chars keep s')
                   else filter_chars keep s'
  end.

Definition map_chars (f : ascii → ascii) : string → string :=
  fix go s := match s with
              | EmptyString => EmptyString
              | String c s' => String (f c) (go s')
              end.

Definition lower_char (c : ascii) : ascii :=
  let n := nat_of_ascii c in
  if ((65 <=? n) && (n <=? 90))%nat then ascii_of_nat (n + 32) else c.

Definition upper_char (c : ascii) : ascii :=
  let n := nat_of_ascii c in
  if ((97 <=? n) && (n <=? 122))%nat then ascii_of_nat (n - 32) else c.

(** [s.lower()] and [s.upper()]; strings are byte strings, so only the
    ASCII letters change. *)
Definition lower : string → string := map_chars lower_char.
Definition upper : string → string := map_chars upper_char.

(** [key in d] and [d.get(key)] for a dict kept in insertion order. *)
Definition dict_mem {V} (key : string) (d : list (string * V)) : bool :=
  existsb (λ kv, String.eqb key kv.1) d.

Fixpoint dict_get {V} (key : string) (d : list (string * V)) : option V :=
  match d with
  | [] => None
  | (k, v) :: d' => if String.eqb key k then Some v else dict_get key d'
  end.

(** [os.path.join(a, b)] of [posixpath]. *)
Definition os_path_join (a b : string) : string :=
  if startswith b "/" then b
  else if String.eqb a "" || endswith a "/" then a +:+ b
  else a +:+ "/" +:+ b.

(** [os.path.basename(p)] *)
Definition os_path_basename (p : string) : string := after_last "/" p.

(** The part of [p] from its last dot on, when a character other than a
    dot comes before that dot; [os.path.splitext(p)[1]] for a [p] without
    a directory part. *)
Fixpoint splitext_go (seen : bool) (p : string) : string :=
  match p with
  | EmptyString => EmptyString
  | String c p' =>
      if Ascii.eqb c "." then
        if char_in "." p' then splitext_go seen p'
        else if seen then p else EmptyString
      else splitext_go true p'
  end.

Definition os_path_splitext_ext (p : string) : string :=
  splitext_go false (os_path_basename p).

(** [s.rfind(c)], [None] standing for -1. *)
Fixpoint rfind (c : ascii) (s : string) : option nat :=
  match s with
  | EmptyString => None
  | String d s' =>
      match rfind c s' with
      | Some i => Some (S i)
      | None => if Ascii.eqb d c then Some 0%nat else None
      end
  end.

(** [pathlib.PurePath.name] and [.stem] *)
Definition path_name (p : string) : string := after_last "/" p.

Definition path_stem (p : string) : string :=
  let name := path_name p in
  match rfind "." name with
  | Some i => if ((0 <? i) && (i <? String.length name - 1))%nat
              then String.substring 0 i name else name
  | None => name
  end.

(** [s * n] *)
Fixpoint repeat_str (s : string) (n : nat) : string :=
  match n with O => EmptyString | S n' => s +:+ repeat_str s n' end.

(** [Path(a) / b] for a relative [b]. *)
Definition path_div (a b : string) : string := a +:+ "/" +:+ b.

(** [string.digits]. *)
Definition digits : string := "0123456789".

End Py.

(** ** The bulk image format converter ([ex.py]) *)

Module Converter.
Import Py.

(** What one run of the imaging library on one input does: [Image.open],
    the mode conversions and [img.save] succeed and leave [content] at the
    output path, or one of them raises; [residue] is what [img.save] left
    at the output path when it had already opened it. *)
Inductive CodecOutcome :=
| Saved (content : bytes)
| Failed (e : exn) (residue : option bytes).

(** The collaborators of the converter. *)
Record Externals := {
  (** [Path(folder).glob(pattern)], in the order the directory scan
      yields the paths *)
  glob : string → string → list string;
  (** [Path(folder).mkdir(parents=True, exist_ok=True)] *)
  mkdir : string → option exn;
  (** the imaging library on (input path, Pillow format), given the
      files present *)
  pil : gmap string bytes → string → string → CodecOutcome
}.

(** The state the converter works on: the paths that exist with their
    contents, the calls made to the imaging library, the lines printed. *)
Record World := {
  files : gmap string bytes;
  calls : list (string * string);
  stdout : list string
}.

Definition print (line : string) (w : World) : World :=
  {| files := files w; calls := calls w; stdout := stdout w ++ [line] |}.

(** [path.exists()] *)
Definition path_exists (w : World) (path : string) : bool :=
  bool_decide (is_Some (files w !! path)).

Definition supported_formats : list (string * string) :=
  [("png", "PNG"); ("jpg", "JPEG"); ("jpeg", "JPEG"); ("jfif", "JPEG");
   ("jpe", "JPEG"); ("bmp", "BMP"); ("webp", "WEBP"); ("tiff", "TIFF");
   ("tif", "TIFF"); ("gif", "GIF"); ("ico", "ICO"); ("ppm", "PPM");
   ("pgm", "PGM")].

Definition format_mapping : list (string * string) :=
  [("png", "PNG"); ("jpg", "JPEG"); ("jpeg", "JPEG"); ("jfif", "JPEG");
   ("jpe", "JPEG"); ("bmp", "BMP"); ("webp", "WEBP"); ("tiff", "TIFF");
   ("tif", "TIFF"); ("gif", "GIF"); ("ico", "ICO")].

Definition get_supported_extensions : list string :=
  map fst supported_formats.

Definition get_pillow_format (format_name : string) : string :=
  let format_name := lower format_name in
  default (upper format_name) (dict_get format_name format_mapping).

(** The body of the [try] of [convert_image]. *)
Definition convert_image_try (ext : Externals) (w : World)
    (input_path output_path output_format : string) : result bool * World :=
  let pillow_format := get_pillow_format output_format in
  let called := calls w ++ [(input_path, pillow_format)] in
  match pil ext (files w) input_path pillow_format with
  | Saved content =>
      (Return true,
       print ("Successfully converted: " +:+ path_name input_path +:+
              " -> " +:+ path_name output_path)
         {| files := <[output_path := content]> (files w);
            calls := called; stdout := stdout w |})
  | Failed e residue =>
      (Raise e,
       {| files := match residue with
                   | Some partial => <[output_path := partial]> (files w)
                   | None => files w
                   end;
          calls := called; stdout := stdout w |})
  end.

Definition convert_image (ext : Externals) (w : World)
    (input_path output_path output_format : string) : result bool * World :=
  match convert_image_try ext w input_path output_path output_format with
  | (Return b, w') => (Return b, w')
  | (Raise e, w') =>
      (* except Exception as e *)
      (Return false,
       print ("Error converting " +:+ input_path +:+ ": " +:+ str e) w')
  end.

Definition get_output_extension (format_name : string) : string :=
  let format_name := lower format_name in
  if bool_decide (format_name ∈ ["jpg"; "jpeg"; "jfif"; "jpe"]) then "jpg"
  else if bool_decide (format_name ∈ ["tif"; "tiff"]) then "tiff"
  else format_name.

(** The three counters of [bulk_convert]. *)
Record Counts := {
  converted_count : nat;
  skipped_count : nat;
  failed_count : nat
}.

(** The counters before the loop. *)
Definition zero_counts : Counts :=
  {| converted_count := 0; skipped_count := 0; failed_count := 0 |}.

(** The files to convert, as [bulk_convert] collects them. *)
Definition collect_image_files (ext : Externals)
    (input_folder : string) (recursive : bool) : list string :=
  let pattern := if recursive then "**/*" else "*" in
  flat_map (λ e,
      let search_pattern := pattern +:+ "." +:+ e in
      glob ext input_folder search_pattern ++
      glob ext input_folder (upper search_pattern))
    get_supported_extensions.

(** The output path of one input file. *)
Definition output_path_of (output_folder output_format input_path : string)
    : string :=
  let output_extension := get_output_extension output_format in
  let output_filename := path_stem input_path +:+ "." +:+ output_extension in
  path_div output_folder output_filename.

(** The inputs whose output path exists in [w]. *)
Definition outputs_present (output_folder output_format : string)
    (w : World) (image_files : list string) : list string :=
  filter
    (λ x, is_Some (files w !! output_path_of output_folder output_format x))
    image_files.

(** One turn of the [for] loop of [bulk_convert]. *)
Definition bulk_convert_item (ext : Externals)
    (output_folder output_format : string) (overwrite : bool)
    (st : Counts * World) (input_path : string) : result (Counts * World) :=
  let (c, w) := st in
  let output_path := output_path_of output_folder output_format input_path in
  if path_exists w output_path && negb overwrite then
    Return ({| converted_count := converted_count c;
               skipped_count := skipped_count c + 1;
               failed_count := failed_count c |},
            print ("Skipped (exists): " +:+ path_name input_path) w)
  else
    match convert_image ext w input_path output_path output_format with
    | (Return success, w') =>
        Return (if success
                then {| converted_count := converted_count c + 1;
                        skipped_count := skipped_count c;
                        failed_count := failed_count c |}
                else {| converted_count := converted_count c;
                        skipped_count := skipped_count c;
                        failed_count := failed_count c + 1 |},
                w')
    | (Raise e, _) => Raise e
    end.

Fixpoint bulk_convert_loop (ext : Externals)
    (output_folder output_format : string) (overwrite : bool)
    (image_files : list string) (st : Counts * World)
    : result (Counts * World) :=
  match image_files with
  | [] => Return st
  | input_path :: rest =>
      bind (bulk_convert_item ext output_folder output_format overwrite
              st input_path)
           (bulk_convert_loop ext output_folder output_format overwrite rest)
  end.

(** [bulk_convert] returns nothing; the model returns the final values of
    its counters, [None] when it left before the loop. *)
Definition bulk_convert (ext : Externals) (w : World)
    (input_folder output_folder output_format : string)
    (recursive overwrite : bool) : result (option Counts * World) :=
  if negb (dict_mem (lower output_format) supported_formats) then
    Return (None,
      print ("Supported formats: " +:+
             String.concat ", " (map fst supported_formats))
        (print ("Unsupported output format: " +:+ output_format) w))
  else
    match mkdir ext output_folder with
    | Some e => Raise e
    | None =>
        let image_files := collect_image_files ext input_folder recursive in
        match image_files with
        | [] => Return (None, print "No supported image files found!" w)
        | _ =>
            let w :=
              print (repeat_str "-" 50)
               (print ("Using Pillow format: " +:+
                       get_pillow_format output_format)
                (print ("Converting to: " +:+ upper output_format)
                 (print ("Found " +:+ pretty (length image_files) +:+
                         " image files to convert") w))) in
            bind (bulk_convert_loop ext output_folder output_format overwrite
                    image_files (zero_counts, w))
              (λ '(c, w),
                Return (Some c,
                  print ("Failed: " +:+ pretty (failed_count c))
                   (print ("Skipped: " +:+ pretty (skipped_count c))
                    (print ("Successfully converted: " +:+
                            pretty (converted_count c))
                     (print "Conversion complete!"
                      (print (repeat_str "-" 50) w))))))
        end
    end.

End Converter.

(** ** The Excel image downloader ([main.py]) *)

Module Downloader.
Import Py.

(** *** Tables *)

(** A cell of a [DataFrame]: missing, a string or an integer. *)
Inductive cell :=
| NaN
| Str (s : string)
| Int (z : Z).

#[global] Instance cell_eq_dec : EqDecision cell.
Proof. solve_decision. Defined.

(** A table: its column names and its rows, each row giving the cells in
    the order of the columns. *)
Record DataFrame := {
  columns : list string;
  rows : list (list cell)
}.

(** [str(value)] *)
Definition cell_str (c : cell) : string :=
  match c with NaN => "nan" | Str s => s | Int z => pretty z end.

(** [pd.notna(value)] *)
Definition notna (c : cell) : bool :=
  match c with NaN => false | _ => true end.

Fixpoint column_index (col : string) (cols : list string) : option nat :=
  match cols with
  | [] => None
  | c :: cols' => if String.eqb col c then Some 0%nat
                  else S <$> column_index col cols'
  end.

(** [row[col]] for a column of the table. *)
Definition row_get (cols : list string) (row : list cell) (col : string)
    : cell :=
  match column_index col cols with
  | Some i => default NaN (row !! i)
  | None => NaN
  end.

(** [df[col]] *)
Definition df_column (df : DataFrame) (col : string) : list cell :=
  map (λ row, row_get (columns df) row col) (rows df).

(** [row.to_dict()] *)
Definition to_dict (cols : list string) (row : list cell)
    : list (string * cell) :=
  map (λ col, (col, row_get cols row col)) cols.

(** *** Outcome records *)

(** The dict [download_image] returns. *)
Record Outcome := {
  index : nat;
  url : string;
  filename : string;
  status : string;
  error : option string
}.

(** [pd.DataFrame(records)] for a list of such dicts. *)
Definition DataFrame_of_records (records : list Outcome) : DataFrame :=
  match records with
  | [] => {| columns := []; rows := [] |}
  | _ =>
      {| columns := ["index"; "url"; "filename"; "status"; "error"];
         rows := map (λ r, [Int (Z.of_nat (index r)); Str (url r);
                            Str (filename r); Str (status r);
                            from_option Str NaN (error r)]) records |}
  end.

(** *** Collaborators and state *)

(** A streamed HTTP response. *)
Record Response := {
  (** the message of the [HTTPError] that [raise_for_status()] raises, for
      a 4xx or 5xx status *)
  http_error : option string;
  (** the [content-type] header *)
  content_type : option string;
  (** the chunks [iter_content] yields *)
  body : list bytes;
  (** the exception that ends the stream after these chunks, if any; an
      exception of [f.write] ends the transfer the same way *)
  body_error : option exn
}.

Record Externals := {
  (** [pd.read_excel(path, engine=...)] *)
  read_excel : string → string → result DataFrame;
  (** [urlparse(url).path] *)
  urlparse_path : string → result string;
  (** [requests.get(url, headers=..., timeout=..., stream=True)] *)
  requests_get : string → Z → result Response;
  (** the exception [open(path, 'wb')] raises, if any *)
  open_wb : string → option exn
}.

(** The object the methods are called on. *)
Record ExcelImageDownloader := {
  excel_path : string;
  url_column : string;
  output_dir : string;
  max_workers : Z;
  timeout : Z
}.

(** The state shared by the workers: the paths that exist with their
    contents, the URLs requested so far, and the CSV files written (kept
    apart from [files], as tables). *)
Record World := {
  files : gmap string bytes;
  requested : list string;
  csv_files : gmap string DataFrame
}.

(** [os.path.exists(path)] *)
Definition os_path_exists (w : World) (path : string) : bool :=
  bool_decide (is_Some (files w !! path)).

Definition note_request (url : string) (w : World) : World :=
  {| files := files w; requested := requested w ++ [url];
     csv_files := csv_files w |}.

(** [open(path, 'wb')]: the file is created, or emptied. *)
Definition create_file (path : string) (w : World) : World :=
  {| files := <[path := []]> (files w); requested := requested w;
     csv_files := csv_files w |}.

(** The content of a file after [chunk] is written at [offset]: a gap
    before the offset reads as zero bytes. *)
Definition pwrite (content : bytes) (offset : nat) (chunk : bytes) : bytes :=
  take offset (content ++ replicate (offset - length content) Byte.x00) ++
  chunk ++ drop (offset + length chunk) content.

(** [f.write(chunk)] on a handle of [path] positioned at [offset]. *)
Definition write_chunk (path : string) (offset : nat) (chunk : bytes)
    (w : World) : World :=
  {| files := <[path := pwrite (default [] (files w !! path)) offset chunk]>
                (files w);
     requested := requested w; csv_files := csv_files w |}.

(** [df.to_csv(path, index=False)] *)
Definition to_csv (path : string) (df : DataFrame) (w : World) : World :=
  {| files := files w; requested := requested w;
     csv_files := <[path := df]> (csv_files w) |}.

(** *** [load_excel_data] *)

(** [df[col].dropna().astype(str).tolist()] *)
Definition column_strings (df : DataFrame) (col : string) : list string :=
  map cell_str (filter (λ c, notna c = true) (df_column df col)).

Definition load_excel_data (self : ExcelImageDownloader) (ext : Externals)
    : result (DataFrame * list string) :=
  (* an exception is logged and raised again *)
  bind
    (if endswith (excel_path self) ".xlsx" then
       read_excel ext (excel_path self) "openpyxl"
     else if endswith (excel_path self) ".xls" then
       read_excel ext (excel_path self) "xlrd"
     else Raise (Exception "Unsupported file format. Use .xlsx or .xls"))
    (λ df,
      if negb (bool_decide (url_column self ∈ columns df)) then
        Raise (Exception ("Column '" +:+ url_column self +:+
                          "' not found in Excel. Available columns: " +:+
                          String.concat ", " (columns df)))
      else
        let urls := column_strings df (url_column self) in
        Return (df, urls)).

(** *** [get_filename] *)

Definition safe_chars : string :=
  "abcdefghijklmnopqrstuvwxyzABCDEFGHIJKLMNOPQRSTUVWXYZ0123456789-_.".

(** The first of the naming columns present and not missing in the row,
    as the file name it gives to [filename]. *)
Fixpoint name_from_row (df_row : list (string * cell)) (filename : string)
    (cols : list string) : string :=
  match cols with
  | [] => filename
  | col :: cols' =>
      if dict_mem col df_row && notna (default NaN (dict_get col df_row)) then
        let safe_name :=
          replace "\" "_"
            (replace "/" "_" (cell_str (default NaN (dict_get col df_row)))) in
        let ext :=
          if String.eqb (os_path_splitext_ext filename) "" then ".jpg"
          else os_path_splitext_ext filename in
        safe_name +:+ ext
      else name_from_row df_row filename cols'
  end.

Definition get_filename (ext : Externals) (url : string) (index : nat)
    (df_row : option (list (string * cell))) : string :=
  match urlparse_path ext url with
  | Raise _ =>
      (* except Exception *)
      "image_" +:+ pretty index +:+ ".jpg"
  | Return path =>
      let filename := os_path_basename path in
      let filename :=
        if String.eqb filename "" || negb (char_in "." filename)
        then "image_" +:+ pretty index else filename in
      let filename :=
        if negb (char_in "." filename) then filename +:+ ".jpg"
        else filename in
      let filename := before_first "?" filename in
      let filename :=
        match df_row with
        | Some df_row =>
            name_from_row df_row filename ["id"; "name"; "title"; "product_id"]
        | None => filename
        end in
      filter_chars (λ c, char_in c safe_chars) filename
  end.

(** *** [download_image] *)

(** The path [download_image] gives to the file named [filename]. *)
Definition filepath_of (self : ExcelImageDownloader) (filename : string)
    : string :=
  os_path_join (output_dir self) filename.

Definition raise_for_status (response : Response) : result unit :=
  match http_error response with
  | Some msg => Raise (RequestException msg)
  | None => Return tt
  end.

(** [for chunk in response.iter_content(...): f.write(chunk)], the handle
    being at [offset]. *)
Fixpoint write_body (path : string) (offset : nat) (chunks : list bytes)
    (w : World) : World :=
  match chunks with
  | [] => w
  | chunk :: rest =>
      write_body path (offset + length chunk) rest
        (write_chunk path offset chunk w)
  end.

Definition record (index : nat) (url filename status : string)
    (error : option string) : Outcome :=
  {| index := index; url := url; filename := filename; status := status;
     error := error |}.

(** The two [except] clauses of [download_image]; they differ in what they
    log only. *)
Definition download_image_except (url filename : string) (index : nat)
    (e : exn) : result Outcome :=
  match e with
  | RequestException _ => Return (record index url filename "failed" (Some (str e)))
  | Exception _ => Return (record index url filename "failed" (Some (str e)))
  end.

(** The body of the [try] of [download_image]. *)
Definition download_image_try (self : ExcelImageDownloader) (ext : Externals)
    (w : World) (url filename : string) (index : nat)
    : result Outcome * World :=
  let filepath := filepath_of self filename in
  if os_path_exists w filepath then
    (Return (record index url filename "skipped" None), w)
  else
    let w := note_request url w in
    match requests_get ext url (timeout self) with
    | Raise e => (Raise e, w)
    | Return response =>
        match raise_for_status response with
        | Raise e => (Raise e, w)
        | Return _ =>
            let content_type := default "" (content_type response) in
            if negb (contains "image" content_type) then
              (Return (record index url filename "failed" (Some "Not an image")),
               w)
            else
              match open_wb ext filepath with
              | Some e => (Raise e, w)
              | None =>
                  let w := write_body filepath 0 (body response)
                             (create_file filepath w) in
                  match body_error response with
                  | Some e => (Raise e, w)
                  | None =>
                      (Return (record index url filename "success" None), w)
                  end
              end
        end
    end.

Definition download_image (self : ExcelImageDownloader) (ext : Externals)
    (w : World) (url filename : string) (index : nat)
    : result Outcome * World :=
  match download_image_try self ext w url filename index with
  | (Return r, w') => (Return r, w')
  | (Raise e, w') => (download_image_except url filename index e, w')
  end.

(** The exception a call for [url] and [filename] meets once the target is
    seen absent, if any: that of the request, of the status, of opening the
    target, or of the transfer. *)
Definition raised_in_call (self : ExcelImageDownloader) (ext : Externals)
    (url filename : string) : option exn :=
  match requests_get ext url (timeout self) with
  | Raise e => Some e
  | Return response =>
      match http_error response with
      | Some msg => Some (RequestException msg)
      | None =>
          if contains "image" (default "" (content_type response)) then
            match open_wb ext (filepath_of self filename) with
            | Some e => Some e
            | None => body_error response
            end
          else None
      end
  end.

(** *** The worker pool of [download_all_images] *)

(** A work item: [(url, filename, i)]. *)
Definition Task : Type := string * string * nat.

(** [df[df[url_column] == url].iloc[0].to_dict()], when a row matches. *)
Definition matching_row (df : DataFrame) (col url : string)
    : option (list (string * cell)) :=
  to_dict (columns df) <$>
    head (filter (λ row, row_get (columns df) row col = Str url) (rows df)).

(** The tasks from position [i] on. *)
Fixpoint prepare_tasks_from (self : ExcelImageDownloader) (ext : Externals)
    (df : option DataFrame) (i : nat) (urls : list string)
    : result (list Task) :=
  match urls with
  | [] => Return []
  | url :: rest =>
      bind
        (match df with
         | None => Return None
         | Some df =>
             (* df[self.url_column] raises KeyError for an unknown column *)
             if bool_decide (url_column self ∈ columns df)
             then Return (matching_row df (url_column self) url)
             else Raise (Exception ("'" +:+ url_column self +:+ "'"))
         end)
        (λ df_row,
          let filename := get_filename ext url i df_row in
          bind (prepare_tasks_from self ext df (S i) rest)
            (λ tasks, Return ((url, filename, i) :: tasks)))
  end.

(** The loop that prepares the tasks. *)
Definition prepare_tasks (self : ExcelImageDownloader) (ext : Externals)
    (df : option DataFrame) (urls : list string) : result (list Task) :=
  prepare_tasks_from self ext df 0 urls.

(** A worker running [download_image] on a task, between two of its
    accesses to the shared state. *)
Inductive thread :=
| Call (t : Task)
    (* the task is taken, the body not started *)
| Requesting (t : Task)
    (* the target was seen absent; [requests.get] comes next *)
| Opening (t : Task) (response : Response)
    (* an image response arrived; [open(filepath, 'wb')] comes next *)
| Writing (t : Task) (offset : nat) (chunks : list bytes)
          (stop : option exn)
    (* the target is open; [chunks] are still to be written *)
| Done (r : result Outcome).
    (* the future holds the value, or the exception, of the call *)

Definition is_done (th : thread) : bool :=
  match th with Done _ => true | _ => false end.

(** One access of a worker to the shared state. *)
Definition thread_step (self : ExcelImageDownloader) (ext : Externals)
    (w : World) (th : thread) : World * thread :=
  match th with
  | Call (url, filename, index) =>
      let filepath := filepath_of self filename in
      if os_path_exists w filepath then
        (w, Done (Return (record index url filename "skipped" None)))
      else (w, Requesting (url, filename, index))
  | Requesting (url, filename, index) =>
      let w := note_request url w in
      match requests_get ext url (timeout self) with
      | Raise e => (w, Done (download_image_except url filename index e))
      | Return response =>
          match raise_for_status response with
          | Raise e => (w, Done (download_image_except url filename index e))
          | Return _ =>
              let content_type := default "" (content_type response) in
              if negb (contains "image" content_type) then
                (w, Done (Return (record index url filename "failed"
                                    (Some "Not an image"))))
              else (w, Opening (url, filename, index) response)
          end
      end
  | Opening (url, filename, index) response =>
      let filepath := filepath_of self filename in
      match open_wb ext filepath with
      | Some e => (w, Done (download_image_except url filename index e))
      | None =>
          (create_file filepath w,
           Writing (url, filename, index) 0 (body response)
                   (body_error response))
      end
  | Writing (url, filename, index) offset chunks stop =>
      let filepath := filepath_of self filename in
      match chunks with
      | chunk :: rest =>
          (write_chunk filepath offset chunk w,
           Writing (url, filename, index) (offset + length chunk) rest stop)
      | [] =>
          match stop with
          | Some e => (w, Done (download_image_except url filename index e))
          | None =>
              (w, Done (Return (record index url filename "success" None)))
          end
      end
  | Done r => (w, Done r)
  end.

(** The state of [download_all_images] while the pool runs: the tasks not
    yet taken by a worker, the workers, and the variables of the loop over
    [as_completed]. *)
Record Pool := {
  queue : list Task;
  workers : list thread;
  results : list Outcome;
  failed_downloads : list Outcome;
  world : World
}.

Definition submit_all (tasks : list Task) (w : World) : Pool :=
  {| queue := tasks; workers := []; results := []; failed_downloads := [];
     world := w |}.

(** One step of the pool: a free worker takes the next task, a worker makes
    one access to the shared state, or the main thread receives a completed
    future whose call returned.  A returned call keeps its worker until it
    is received; receiving changes nothing in the shared state, so every
    order in which the workers of the executor reach the shared state is
    an order of these steps. *)
Inductive pool_step (self : ExcelImageDownloader) (ext : Externals)
    : Pool → Pool → Prop :=
| step_take t q ws rs fs w :
    Z.of_nat (length ws) < max_workers self →
    pool_step self ext
      {| queue := t :: q; workers := ws; results := rs;
         failed_downloads := fs; world := w |}
      {| queue := q; workers := ws ++ [Call t]; results := rs;
         failed_downloads := fs; world := w |}
| step_work q ws1 th ws2 rs fs w w' th' :
    is_done th = false →
    thread_step self ext w th = (w', th') →
    pool_step self ext
      {| queue := q; workers := ws1 ++ th :: ws2; results := rs;
         failed_downloads := fs; world := w |}
      {| queue := q; workers := ws1 ++ th' :: ws2; results := rs;
         failed_downloads := fs; world := w' |}
| step_result q ws1 r ws2 rs fs w :
    pool_step self ext
      {| queue := q; workers := ws1 ++ Done (Return r) :: ws2; results := rs;
         failed_downloads := fs; world := w |}
      {| queue := q; workers := ws1 ++ ws2; results := rs ++ [r];
         failed_downloads :=
           if String.eqb (status r) "failed" then fs ++ [r] else fs;
         world := w |}.

(** Every future has been received. *)
Definition finished (p : Pool) : Prop := queue p = [] ∧ workers p = [].

(** *** The report and the retry list *)

(** The four numbers [generate_report] logs. *)
Record Report := {
  total : nat;
  successful : nat;
  failed : nat;
  skipped : nat
}.

Definition count_status (s : string) (results : list Outcome) : nat :=
  length (filter (λ r, status r = s) results).

Definition generate_report (results : list Outcome) : Report :=
  {| total := length results;
     successful := count_status "success" results;
     failed := count_status "failed" results;
     skipped := count_status "skipped" results |}.

Definition save_failed_downloads (failed_downloads : list Outcome)
    (w : World) : World :=
  let failed_df := DataFrame_of_records failed_downloads in
  to_csv "failed_downloads.csv" failed_df w.

(** *** [download_all_images] *)

(** What a call of [download_all_images] comes to: the list it returns, with
    the report it logged and the state it leaves, or an exception. *)
Inductive Run :=
| Returned (results : list Outcome) (report : Report) (w : World)
| Raised (e : exn).

(** The end of [download_all_images], once every future is received: the
    report, the retry list when a download failed, the return. *)
Definition after_pool (p : Pool) : Run :=
  Returned (results p) (generate_report (results p))
    (match failed_downloads p with
     | [] => world p
     | _ => save_failed_downloads (failed_downloads p) (world p)
     end).

(** The runs of [download_all_images], one for each schedule of the pool. *)
Inductive download_all_images (self : ExcelImageDownloader) (ext : Externals)
    (df : option DataFrame) (urls : list string) (w : World) : Run → Prop :=
| run_tasks_raise e :
    prepare_tasks self ext df urls = Raise e →
    download_all_images self ext df urls w (Raised e)
| run_pool_raise tasks :
    (* ThreadPoolExecutor(max_workers=...) *)
    prepare_tasks self ext df urls = Return tasks →
    max_workers self <= 0 →
    download_all_images self ext df urls w
      (Raised (Exception "max_workers must be greater than 0"))
| run_future_raise tasks p e :
    (* future.result() raises what the call raised *)
    prepare_tasks self ext df urls = Return tasks →
    0 < max_workers self →
    rtc (pool_step self ext) (submit_all tasks w) p →
    Done (Raise e) ∈ workers p →
    download_all_images self ext df urls w (Raised e)
| run_return tasks p :
    prepare_tasks self ext df urls = Return tasks →
    0 < max_workers self →
    rtc (pool_step self ext) (submit_all tasks w) p →
    finished p →
    download_all_images self ext df urls w (after_pool p).

(** *** Quantities of a pool state *)

(** The task a record answers. *)
Definition outcome_task (r : Outcome) : Task := (url r, filename r, index r).

(** The task a worker runs, or ran. *)
Definition thread_task (th : thread) : option Task :=
  match th with
  | Call t | Requesting t | Opening t _ | Writing t _ _ _ => Some t
  | Done (Return r) => Some (outcome_task r)
  | Done (Raise _) => None
  end.

(** The tasks a pool state accounts for: answered, running, waiting. *)
Definition pool_tasks (p : Pool) : list Task :=
  map outcome_task (results p) ++ omap thread_task (workers p) ++ queue p.

(** No future holds an exception. *)
Definition no_raise (p : Pool) : Prop := ∀ e, Done (Raise e) ∉ workers p.

(** What holds of every state of the pool of a run over [tasks]: each task
    is accounted for once, no call raised, and [failed_downloads] lists the
    failed records received. *)
Record pool_inv (tasks : list Task) (p : Pool) : Prop := {
  inv_tasks : pool_tasks p ≡ₚ tasks;
  inv_no_raise : no_raise p;
  inv_failed :
    failed_downloads p = filter (λ r, status r = "failed") (results p)
}.

(** [path] exists in [w]. *)
Definition present (w : World) (path : string) : Prop :=
  is_Some (files w !! path).

#[global] Instance present_dec w path : Decision (present w path).
Proof. unfold present. apply _. Defined.

(** The target of a task. *)
Definition task_target (self : ExcelImageDownloader) (t : Task) : string :=
  filepath_of self t.1.2.

(** The tasks whose target exists in [w]. *)
Definition tasks_present (self : ExcelImageDownloader) (w : World)
    (ts : list Task) : list Task :=
  filter (λ t, present w (task_target self t)) ts.

(** A pool whose only worker is [th]. *)
Definition solo (q : list Task) (rs fs : list Outcome) (w : World)
    (th : thread) : Pool :=
  {| queue := q; workers := [th]; results := rs; failed_downloads := fs;
     world := w |}.

(** A record that is not a failure has its target on the disk, and its
    status is one of the three. *)
Definition record_kept (self : ExcelImageDownloader) (w : World)
    (r : Outcome) : Prop :=
  status r ∈ ["success"; "failed"; "skipped"] ∧
  (status r ≠ "failed" → present w (filepath_of self (filename r))).

(** A worker that opened its target, or returned without failure, has its
    target on the disk. *)
Definition thread_kept (self : ExcelImageDownloader) (w : World)
    (th : thread) : Prop :=
  match th with
  | Writing t _ _ _ => present w (task_target self t)
  | Done (Return r) => record_kept self w r
  | _ => True
  end.

Definition pool_kept (self : ExcelImageDownloader) (p : Pool) : Prop :=
  Forall (thread_kept self (world p)) (workers p) ∧
  Forall (record_kept self (world p)) (results p).

(** In a run started from [w1], a worker gets past the test of existence
    only for a target absent from [w1]. *)
Definition thread_skips (self : ExcelImageDownloader) (w1 : World)
    (th : thread) : Prop :=
  match th with
  | Call _ => True
  | Requesting t | Opening t _ | Writing t _ _ _ =>
      ¬ present w1 (task_target self t)
  | Done (Return r) =>
      present w1 (filepath_of self (filename r)) → status r = "skipped"
  | Done (Raise _) => True
  end.

Definition pool_skips (self : ExcelImageDownloader) (w1 : World) (p : Pool)
    : Prop :=
  (∀ path, present w1 path → present (world p) path) ∧
  Forall (thread_skips self w1) (workers p) ∧
  Forall (λ r, present w1 (filepath_of self (filename r)) →
               status r = "skipped") (results p).

(** In a run started from [w1] in which every target exists, the workers
    only test and return, and the state stays [w1]. *)
Definition thread_idle (self : ExcelImageDownloader) (w1 : World)
    (th : thread) : Prop :=
  match th with
  | Call t => present w1 (task_target self t)
  | Done _ => True
  | _ => False
  end.

Definition pool_idle (self : ExcelImageDownloader) (w1 : World) (p : Pool)
    : Prop :=
  world p = w1 ∧
  Forall (λ t, present w1 (task_target self t)) (queue p) ∧
  Forall (thread_idle self w1) (workers p).

(** The number of chunks [requests.get] answers [url] with. *)
Definition body_length (self : ExcelImageDownloader) (ext : Externals)
    (url : string) : nat :=
  match requests_get ext url (timeout self) with
  | Return response => length (body response)
  | Raise _ => 0
  end.

(** A bound on the accesses to the shared state a worker has left. *)
Definition thread_cost (self : ExcelImageDownloader) (ext : Externals)
    (th : thread) : nat :=
  match th with
  | Call (url, _, _) => 4 + body_length self ext url
  | Requesting (url, _, _) => 3 + body_length self ext url
  | Opening _ response => 2 + length (body response)
  | Writing _ _ chunks _ => 1 + length chunks
  | Done _ => 0
  end.

(** A bound on the steps a pool has left: a waiting task is taken, run and
    received; a running one is run and received. *)
Definition pool_cost (self : ExcelImageDownloader) (ext : Externals)
    (p : Pool) : nat :=
  sum_list_with (λ t, thread_cost self ext (Call t) + 2)%nat (queue p) +
  sum_list_with (λ th, thread_cost self ext th + 1)%nat (workers p).

(** The schedule that runs the calls one after the other, in the order of
    the tasks. *)
Fixpoint run_in_order (self : ExcelImageDownloader) (ext : Externals)
    (tasks : list Task) (p : Pool) : result Pool :=
  match tasks with
  | [] => Return p
  | (url, filename, index) :: rest =>
      match download_image self ext (world p) url filename index with
      | (Return r, w') =>
          run_in_order self ext rest
            {| queue := rest; workers := []; results := results p ++ [r];
               failed_downloads :=
                 if String.eqb (status r) "failed"
                 then failed_downloads p ++ [r] else failed_downloads p;
               world := w' |}
      | (Raise e, _) => Raise e
      end
  end.

End Downloader.

(** ** The requests a run accounts for *)

Module Requests.
Import Py Downloader.

(** The requests a worker has made for its task. *)
Definition requests_of_thread (th : thread) : list string :=
  match th with
  | Opening (url, _, _) _ | Writing (url, _, _) _ _ _ => [url]
  | Done (Return r) =>
      if bool_decide (status r = "skipped") then [] else [url r]
  | _ => []
  end.

(** The requests the records received stand for. *)
Definition requests_of_results (rs : list Outcome) : list string :=
  map url (filter (λ r, status r ≠ "skipped") rs).

(** The requests a pool state accounts for. *)
Definition pool_requests (p : Pool) : list string :=
  concat (map requests_of_thread (workers p)) ++
  requests_of_results (results p).


(** A record of success has its target holding the body the server
    answered its URL with. *)
Definition record_delivered (self : ExcelImageDownloader) (ext : Externals)
    (w : World) (r : Outcome) : Prop :=
  status r = "success" →
  ∃ response,
    requests_get ext (url r) (timeout self) = Return response ∧
    files w !! filepath_of self (filename r)
    = Some (concat (body response)).

(** A worker holds the response to its request, and while it writes, its
    target holds the chunks written so far. *)
Definition thread_delivered (self : ExcelImageDownloader) (ext : Externals)
    (w : World) (th : thread) : Prop :=
  match th with
  | Opening (url, _, _) response =>
      requests_get ext url (timeout self) = Return response
  | Writing (url, filename, _) offset chunks _ =>
      ∃ response written,
        requests_get ext url (timeout self) = Return response ∧
        files w !! filepath_of self filename = Some written ∧
        length written = offset ∧
        written ++ concat chunks = concat (body response)
  | Done (Return r) => record_delivered self ext w r
  | _ => True
  end.

Definition pool_delivered (self : ExcelImageDownloader) (ext : Externals)
    (p : Pool) : Prop :=
  Forall (thread_delivered self ext (world p)) (workers p) ∧
  Forall (record_delivered self ext (world p)) (results p).

End Requests.

(** ** [main] of the downloader *)

Module Main.
Import Py Downloader.




(** The loop over the failed records: one call of [download_image] for
    each in turn; the records of the calls are logged, nothing else. *)
Fixpoint retry (self : ExcelImageDownloader) (ext : Externals)
    (failed : list Outcome) (w : World) : result (list Outcome) * World :=
  match failed with
  | [] => (Return [], w)
  | item :: rest =>
      match download_image self ext w (url item) (filename item)
              (index item) with
      | (Return result, w') =>
          match retry self ext rest w' with
          | (Return logged, w'') => (Return (result :: logged), w'')
          | (Raise e, w'') => (Raise e, w'')
          end
      | (Raise e, w') => (Raise e, w')
      end
  end.



End Main.

(** ** The command line of the converter *)

Module CommandLine.
Import Py Converter.




End CommandLine.

(** ** Concrete collaborators and inputs *)

Module Sample.
Import Py.

Definition scheme_chars : string :=
  "abcdefghijklmnopqrstuvwxyzABCDEFGHIJKLMNOPQRSTUVWXYZ0123456789+-.".

Definition is_alpha (c : ascii) : bool :=
  let n := nat_of_ascii c in
  (((65 <=? n) && (n <=? 90)) || ((97 <=? n) && (n <=? 122)))%nat.

Fixpoint all_chars (p : ascii → bool) (s : string) : bool :=
  match s with
  | EmptyString => true
  | String c s' => p c && all_chars p s'
  end.

(** The rest of [s] from the first character of [stops] on. *)
Fixpoint from_first_of (stops : string) (s : string) : string :=
  match s with
  | EmptyString => EmptyString
  | String c s' => if char_in c stops then s else from_first_of stops s'
  end.

(** [urlparse(url).path] for a URL of the shape
    [scheme://netloc/path?query#fragment] (each part optional) without
    [;parameters], brackets or control characters: the scheme up to the
    first colon is dropped, then the host after [//], then the fragment and
    the query. *)
Definition urlparse_path_plain (url : string) : result string :=
  let url :=
    match url with
    | String c _ =>
        if is_alpha c && char_in ":" url &&
           all_chars (λ c, char_in c scheme_chars) (before_first ":" url)
        then default url (after_first ":" url) else url
    | EmptyString => url
    end in
  let url :=
    if startswith url "//"
    then from_first_of "/?#" (String.substring 2 (String.length url - 2) url)
    else url in
  Return (before_first "?" (before_first "#" url)).

(** A downloader built with the defaults of the command line. *)
Definition downloader : Downloader.ExcelImageDownloader :=
  {| Downloader.excel_path := "links.xlsx";
     Downloader.url_column := "url";
     Downloader.output_dir := "downloaded_images";
     Downloader.max_workers := 5;
     Downloader.timeout := 30 |}.

(** A state with no file. *)
Definition empty_world : Downloader.World :=
  {| Downloader.files := ∅; Downloader.requested := [];
     Downloader.csv_files := ∅ |}.

(** A state in which [downloaded_images/x.jpg] exists. *)
Definition world_with_x : Downloader.World :=
  {| Downloader.files := {[ "downloaded_images/x.jpg" := [Byte.x01] ]};
     Downloader.requested := []; Downloader.csv_files := ∅ |}.

(** A sheet with one column of links; the second row has no link, the
    other two name the same file on two hosts. *)
Definition links : Downloader.DataFrame :=
  {| Downloader.columns := ["url"];
     Downloader.rows := [[Downloader.Str "http://a.example/x.jpg"];
                         [Downloader.NaN];
                         [Downloader.Str "http://b.example/x.jpg"]] |}.

Definition links_urls : list string :=
  ["http://a.example/x.jpg"; "http://b.example/x.jpg"].

(** Collaborators of the downloader around a given [requests.get]:
    [links.xlsx] holds the sheet above, no other spreadsheet exists, and
    every file can be opened. *)
Definition web (get : string → result Downloader.Response)
    : Downloader.Externals :=
  {| Downloader.read_excel := λ path _,
       if String.eqb path "links.xlsx" then Return links
       else Raise (Exception "No such file or directory");
     Downloader.urlparse_path := urlparse_path_plain;
     Downloader.requests_get := λ url _, get url;
     Downloader.open_wb := λ _, None |}.

(** A 200 response carrying an image in the given chunks. *)
Definition image (chunks : list bytes) (stop : option exn)
    : Downloader.Response :=
  {| Downloader.http_error := None;
     Downloader.content_type := Some "image/jpeg";
     Downloader.body := chunks;
     Downloader.body_error := stop |}.

(** Every URL answers with a two-byte image. *)
Definition web_images : Downloader.Externals :=
  web (λ _, Return (image [[Byte.x01; Byte.x02]] None)).

(** Every URL answers with an image whose body is empty. *)
Definition web_empty_bodies : Downloader.Externals :=
  web (λ _, Return (image [] None)).

(** Every URL answers with an image whose transfer breaks after the first
    chunk. *)
Definition web_broken_transfers : Downloader.Externals :=
  web (λ _, Return (image [[Byte.x01; Byte.x02]]
                      (Some (RequestException "Connection broken")))).

(** [requests.get] raises an exception that carries no message, as
    [MemoryError()] does. *)
Definition web_out_of_memory : Downloader.Externals :=
  web (λ _, Raise (Exception "")).

(** Five links; the hosts of the second and of the fourth are down. *)
Definition five_urls : list string :=
  ["http://a.example/1.jpg"; "http://down.example/2.jpg";
   "http://a.example/3.jpg"; "http://down.example/4.jpg";
   "http://a.example/5.jpg"].

Definition web_two_down : Downloader.Externals :=
  web (λ url,
    if contains "down.example" url
    then Raise (RequestException "Max retries exceeded")
    else Return (image [[Byte.x01; Byte.x02]] None)).

(** A state in which [downloaded_images/5.jpg] exists. *)
Definition world_with_5 : Downloader.World :=
  {| Downloader.files := {[ "downloaded_images/5.jpg" := [Byte.x01] ]};
     Downloader.requested := []; Downloader.csv_files := ∅ |}.



(** A folder holding [a.jpg] and [b.png], in this order; a pattern is the
    literal [*] followed by the suffix to match. *)
Definition folder_glob (_ pattern : string) : list string :=
  match pattern with
  | String "*" suffix =>
      filter (λ p, endswith p suffix = true) ["in/a.jpg"; "in/b.png"]
  | _ => []
  end.

(** The imaging library converting every input into the same two bytes. *)
Definition studio : Converter.Externals :=
  {| Converter.glob := folder_glob;
     Converter.mkdir := λ _, None;
     Converter.pil := λ _ _ _, Converter.Saved [Byte.x01; Byte.x02] |}.

(** The imaging library failing on every input, with the message of
    [Image.open]. *)
Definition broken_studio : Converter.Externals :=
  {| Converter.glob := folder_glob;
     Converter.mkdir := λ _, None;
     Converter.pil := λ _ _ _,
       Converter.Failed (Exception "cannot identify image file") None |}.

Definition empty_disk : Converter.World :=
  {| Converter.files := ∅; Converter.calls := []; Converter.stdout := [] |}.

(** A disk on which [out/a.jpg] exists. *)
Definition disk_with_a : Converter.World :=
  {| Converter.files := {[ "out/a.jpg" := [Byte.x01] ]};
     Converter.calls := []; Converter.stdout := [] |}.

End Sample.

(** * Properties *)

Import Py.

(** ** The model on concrete inputs *)

Example basename_of_path :
  os_path_basename "/img/2024/x.jpg" = "x.jpg".
Proof. reflexivity. Qed.

Example splitext_skips_leading_dots :
  os_path_splitext_ext "a.b.c" = ".c" ∧ os_path_splitext_ext ".bashrc" = "" ∧
  os_path_splitext_ext "x." = ".".
Proof. repeat split; reflexivity. Qed.

Example stem_of_path :
  path_stem "in/photo.tar.png" = "photo.tar" ∧ path_stem "in/.png" = ".png".
Proof. split; reflexivity. Qed.

Example join_of_paths :
  os_path_join "downloaded_images" "x.jpg" = "downloaded_images/x.jpg" ∧
  os_path_join "downloaded_images/" "x.jpg" = "downloaded_images/x.jpg" ∧
  os_path_join "downloaded_images" "/tmp/x.jpg" = "/tmp/x.jpg".
Proof. repeat split; reflexivity. Qed.

Example path_of_url :
  Sample.urlparse_path_plain "http://a.example/img/x.jpg?size=2#top"
  = Return "/img/x.jpg".
Proof. reflexivity. Qed.

Example filename_from_url :
  Downloader.get_filename Sample.web_images
    "http://a.example/img/x.jpg?size=2" 3 None = "x.jpg".
Proof. vm_compute. reflexivity. Qed.

Example filename_from_index :
  Downloader.get_filename Sample.web_images "http://a.example/" 3 None
  = "image_3.jpg".
Proof. vm_compute. reflexivity. Qed.

Example filename_from_id_column :
  Downloader.get_filename Sample.web_images "http://a.example/p/x.png" 3
    (Some [("url", Downloader.Str "http://a.example/p/x.png");
           ("id", Downloader.Int 17)]) = "17.png".
Proof. vm_compute. reflexivity. Qed.

Example pillow_format_and_extension :
  Converter.get_pillow_format "jpg" = "JPEG" ∧
  Converter.get_pillow_format "ppm" = "PPM" ∧
  Converter.get_output_extension "JPEG" = "jpg" ∧
  Converter.get_output_extension "tif" = "tiff".
Proof. repeat split; reflexivity. Qed.

(** Five links, two of which fail, the target of the fifth being there:
    two successes, two failures, one skip, and a retry list of two rows. *)
Example five_items_two_fail_one_exists :
  match Downloader.prepare_tasks Sample.downloader Sample.web_two_down None
          Sample.five_urls with
  | Return tasks =>
      match Downloader.run_in_order Sample.downloader Sample.web_two_down
              tasks (Downloader.submit_all tasks Sample.world_with_5) with
      | Return p =>
          Some (Downloader.generate_report (Downloader.results p),
                map Downloader.url (Downloader.failed_downloads p))
      | Raise _ => None
      end
  | Raise _ => None
  end
  = Some ({| Downloader.total := 5; Downloader.successful := 2;
             Downloader.failed := 2; Downloader.skipped := 1 |},
          ["http://down.example/2.jpg"; "http://down.example/4.jpg"]).
Proof. vm_compute. reflexivity. Qed.

(** No link: the report is all zero and nothing is written. *)
Example no_item :
  Downloader.after_pool (Downloader.submit_all [] Sample.empty_world)
  = Downloader.Returned []
      {| Downloader.total := 0; Downloader.successful := 0;
         Downloader.failed := 0; Downloader.skipped := 0 |}
      Sample.empty_world.
Proof. reflexivity. Qed.

(** ** The per-item executor of the downloader *)

Section Executor.
Import Downloader.

Lemma download_image_except_failed url filename index e :
  download_image_except url filename index e =
  Return (record index url filename "failed" (Some (str e))).
Proof. by destruct e. Qed.

Lemma pwrite_at_end (content chunk : bytes) :
  pwrite content (length content) chunk = content ++ chunk.
Proof.
  unfold pwrite. rewrite Nat.sub_diag. simpl. rewrite app_nil_r.
  rewrite firstn_all. rewrite drop_ge by lia. by rewrite app_nil_r.
Qed.

(** Writing the chunks of a body at the end of a file appends them. *)
Lemma write_body_files path chunks : ∀ w content,
  files w !! path = Some content →
  files (write_body path (length content) chunks w) =
  <[path := content ++ concat chunks]> (files w).
Proof.
  induction chunks as [|chunk rest IH]; intros w content Hc; simpl.
  - rewrite app_nil_r. by rewrite insert_id.
  - replace (length content + length chunk)%nat
      with (length (content ++ chunk)) by by rewrite length_app.
    rewrite IH.
    + simpl. rewrite Hc. simpl. rewrite pwrite_at_end.
      rewrite insert_insert_eq. by rewrite app_assoc.
    + simpl. rewrite Hc. simpl. rewrite pwrite_at_end.
      by rewrite lookup_insert_eq.
Qed.

Lemma write_body_requested path chunks : ∀ offset w,
  requested (write_body path offset chunks w) = requested w ∧
  csv_files (write_body path offset chunks w) = csv_files w.
Proof.
  induction chunks as [|chunk rest IH]; intros offset w; simpl; [done|].
  destruct (IH (offset + length chunk)%nat (write_chunk path offset chunk w))
    as [-> ->]. done.
Qed.

(** The file a call opens and fills holds the body it received. *)
Lemma write_new_file path chunks w :
  files (write_body path 0 chunks (create_file path w)) =
  <[path := concat chunks]> (files w).
Proof.
  pose proof (write_body_files path chunks (create_file path w) []) as H.
  simpl in H. rewrite H.
  - by rewrite insert_insert_eq.
  - by rewrite lookup_insert_eq.
Qed.

End Executor.

(** The seven ways through [download_image]. *)
Ltac split_call self ext w url filename :=
  unfold Downloader.download_image, Downloader.download_image_try,
    Downloader.raise_for_status;
  destruct (Downloader.os_path_exists w (Downloader.filepath_of self filename))
    eqn:Hexists;
  [| destruct (Downloader.requests_get ext url (Downloader.timeout self))
       as [response|e] eqn:Hget;
     [ destruct (Downloader.http_error response) as [msg|] eqn:Hstatus;
       [| destruct (contains "image"
                      (default "" (Downloader.content_type response)))
            eqn:Himage; simpl;
          [ destruct (Downloader.open_wb ext
                        (Downloader.filepath_of self filename))
              as [e|] eqn:Hopen;
            [| destruct (Downloader.body_error response) as [e|] eqn:Hstop ]
          | ] ]
     | ] ];
  rewrite ?download_image_except_failed.

(** ** The per-item executor of the converter *)

Section Codec.
Import Converter.
Context (ext : Externals).

Lemma convert_image_saved w input_path output_path output_format content :
  pil ext (files w) input_path (get_pillow_format output_format)
    = Saved content →
  ∃ w', convert_image ext w input_path output_path output_format
          = (Return true, w') ∧
        files w' = <[output_path := content]> (files w) ∧
        calls w' = calls w ++ [(input_path, get_pillow_format output_format)].
Proof.
  intros Hpil. unfold convert_image, convert_image_try. rewrite Hpil.
  eexists. split; [reflexivity|]. done.
Qed.

Lemma convert_image_failed w input_path output_path output_format e residue :
  pil ext (files w) input_path (get_pillow_format output_format)
    = Failed e residue →
  ∃ w', convert_image ext w input_path output_path output_format
          = (Return false, w') ∧
        files w' = match residue with
                   | Some partial => <[output_path := partial]> (files w)
                   | None => files w
                   end ∧
        calls w' = calls w ++ [(input_path, get_pillow_format output_format)] ∧
        stdout w' = stdout w ++
                    ["Error converting " +:+ input_path +:+ ": " +:+ str e].
Proof.
  intros Hpil. unfold convert_image, convert_image_try. rewrite Hpil.
  eexists. split; [reflexivity|]. done.
Qed.

(** [convert_image] returns a boolean whatever the imaging library does,
    and the paths that exist keep existing. *)
Lemma convert_image_returns w input_path output_path output_format :
  ∃ b w', convert_image ext w input_path output_path output_format
            = (Return b, w') ∧
          (b = true → is_Some (files w' !! output_path)) ∧
          (∀ path, is_Some (files w !! path) → is_Some (files w' !! path)).
Proof.
  destruct (pil ext (files w) input_path (get_pillow_format output_format))
    as [content|e residue] eqn:Hpil.
  - destruct (convert_image_saved _ _ output_path _ _ Hpil) as (w' & -> & Hf & _).
    eexists _, _. split; [done|]. rewrite Hf. split.
    + intros _. rewrite lookup_insert_eq. eauto.
    + intros path Hp. rewrite lookup_insert. case_decide; eauto.
  - destruct (convert_image_failed _ _ output_path _ _ _ Hpil)
      as (w' & -> & Hf & _).
    eexists _, _. split; [done|]. rewrite Hf. split; [done|].
    intros path Hp. destruct residue; [|done].
    rewrite lookup_insert. case_decide; eauto.
Qed.

End Codec.

Section ExecutorClaims.
Import Downloader.
Context (self : ExcelImageDownloader) (ext : Externals).

(** C10. [download_image] is total and its record is well formed: for every
    state, URL, file name and index the call returns a record (it never
    raises), the status is one of "success", "failed" and "skipped", and the
    error is a string exactly when the status is "failed" (it is [None] on
    success and on skip). *)
Theorem download_image_total_well_formed w url filename index :
  ∃ r w',
    download_image self ext w url filename index = (Return r, w') ∧
    status r ∈ ["success"; "failed"; "skipped"] ∧
    (is_Some (error r) ↔ status r = "failed") ∧
    (error r = None ↔ status r = "success" ∨ status r = "skipped").
Proof.
  split_call self ext w url filename;
    (eexists _, _; split; [reflexivity|]; simpl;
     split; [set_solver|]; split; split;
     try done; try (by intros [? ?]); try (by intros [?|?]); eauto).
Qed.

(** C2. An item whose target already exists is skipped without the external
    operation being invoked.  Downloader: when the target path exists,
    [download_image] returns the "skipped" record and leaves the state as it
    was, the list of requested URLs included (no fetch).  Converter, with
    overwrite not requested: when the output path exists, the turn of the
    loop counts one more skipped item and leaves the files and the list of
    calls to the imaging library as they were (no codec call). *)
Theorem existing_target_is_skipped :
  (∀ w url filename index,
     os_path_exists w (filepath_of self filename) = true →
     download_image self ext w url filename index =
     (Return (record index url filename "skipped" None), w)) ∧
  (∀ cext output_folder output_format c cw input_path,
     Converter.path_exists cw
       (Converter.output_path_of output_folder output_format input_path)
       = true →
     ∃ c' cw',
       Converter.bulk_convert_item cext output_folder output_format false
         (c, cw) input_path = Return (c', cw') ∧
       Converter.skipped_count c' = (Converter.skipped_count c + 1)%nat ∧
       Converter.converted_count c' = Converter.converted_count c ∧
       Converter.failed_count c' = Converter.failed_count c ∧
       Converter.files cw' = Converter.files cw ∧
       Converter.calls cw' = Converter.calls cw).
Proof.
  split.
  - intros w url filename index Hex.
    unfold download_image, download_image_try. by rewrite Hex.
  - intros cext output_folder output_format c cw input_path Hex.
    unfold Converter.bulk_convert_item. rewrite Hex. simpl.
    eexists _, _. split; [reflexivity|]. done.
Qed.

(** C4, as the code has it.  A success of the external operation is recorded
    as it is, with no check of the target.  Fetch: when the target is absent,
    the response is an image without HTTP error, the target can be opened and
    the transfer ends without exception, the record is "success" and the
    target holds the bytes received, none when the body is empty.  Codec:
    when the imaging library saves, [convert_image] returns [True] and the
    output path holds what was saved. *)
Theorem success_is_recorded_unchecked :
  (∀ w url filename index response,
     os_path_exists w (filepath_of self filename) = false →
     requests_get ext url (timeout self) = Return response →
     http_error response = None →
     contains "image" (default "" (content_type response)) = true →
     open_wb ext (filepath_of self filename) = None →
     body_error response = None →
     ∃ w',
       download_image self ext w url filename index =
       (Return (record index url filename "success" None), w') ∧
       files w' = <[filepath_of self filename := concat (body response)]>
                    (files w)) ∧
  (∀ cext cw input_path output_path output_format content,
     Converter.pil cext (Converter.files cw) input_path
       (Converter.get_pillow_format output_format) = Converter.Saved content →
     ∃ cw',
       Converter.convert_image cext cw input_path output_path output_format
         = (Return true, cw') ∧
       Converter.files cw' = <[output_path := content]> (Converter.files cw)).
Proof.
  split.
  - intros w url filename index response Hex Hget Hst Him Hop Hbe.
    unfold download_image, download_image_try, raise_for_status.
    rewrite Hex, Hget, Hst, Him, Hop, Hbe. simpl.
    eexists. split; [reflexivity|]. by rewrite write_new_file.
  - intros cext cw input_path output_path output_format content Hpil.
    destruct (convert_image_saved cext cw input_path output_path
                output_format content Hpil) as (cw' & Hc & Hf & _).
    eauto.
Qed.

(** C8, as the code has it.  A call of [download_image] changes no path but
    its own target and writes nothing when the item is skipped.  On success
    the target holds the whole body.  On failure either no file was touched,
    or the transfer raised after the target had been opened, and the target
    is left holding the chunks received before the exception. *)
Theorem download_image_writes_target_only w url filename index :
  ∃ r w',
    download_image self ext w url filename index = (Return r, w') ∧
    (∀ path, path ≠ filepath_of self filename →
             files w' !! path = files w !! path) ∧
    (status r = "skipped" → w' = w) ∧
    (status r = "success" →
       ∃ response,
         requests_get ext url (timeout self) = Return response ∧
         body_error response = None ∧
         files w' = <[filepath_of self filename := concat (body response)]>
                      (files w)) ∧
    (status r = "failed" →
       files w' = files w ∨
       ∃ response e,
         requests_get ext url (timeout self) = Return response ∧
         body_error response = Some e ∧
         error r = Some (str e) ∧
         files w' = <[filepath_of self filename := concat (body response)]>
                      (files w)).
Proof.
  split_call self ext w url filename;
    (eexists _, _; split; [reflexivity|]);
    rewrite ?write_new_file; simpl;
    (split; [intros path Hne; by rewrite ?lookup_insert_ne|]);
    (split; [done|]); split; intros Hs;
    first [ discriminate Hs | by left | by eauto 10 ].
Qed.

End ExecutorClaims.

(** ** The worker pool *)

Section Pool.
Import Downloader.
Context (self : ExcelImageDownloader) (ext : Externals).

Local Abbreviation step := (pool_step self ext).

Lemma thread_step_task w th w' th' :
  is_done th = false →
  thread_step self ext w th = (w', th') →
  thread_task th' = thread_task th ∧ (∀ e, th' ≠ Done (Raise e)) ∧
  (thread_cost self ext th' < thread_cost self ext th)%nat.
Proof.
  intros Hnd Hstep.
  destruct th as [[[url filename] index]|[[url filename] index]
                 |[[url filename] index] response
                 |[[url filename] index] offset chunks stop|r];
    simpl in *; try discriminate.
  - destruct (os_path_exists _ _); inversion Hstep; subst; simpl;
      repeat split; (congruence || lia).
  - unfold body_length. unfold raise_for_status in Hstep.
    destruct (requests_get ext url (timeout self)) as [response|e].
    + destruct (http_error response).
      * rewrite download_image_except_failed in Hstep.
        inversion Hstep; subst; simpl. repeat split; (congruence || lia).
      * destruct (negb _); inversion Hstep; subst; simpl;
          repeat split; (congruence || lia).
    + rewrite download_image_except_failed in Hstep.
      inversion Hstep; subst; simpl. repeat split; (congruence || lia).
  - destruct (open_wb _ _).
    + rewrite download_image_except_failed in Hstep.
      inversion Hstep; subst; simpl. repeat split; (congruence || lia).
    + inversion Hstep; subst; simpl. repeat split; (congruence || lia).
  - destruct chunks as [|chunk rest].
    + destruct stop.
      * rewrite download_image_except_failed in Hstep.
        inversion Hstep; subst; simpl. repeat split; (congruence || lia).
      * inversion Hstep; subst; simpl. repeat split; (congruence || lia).
    + inversion Hstep; subst; simpl. repeat split; (congruence || lia).
Qed.

Lemma step_tasks p p' : step p p' → pool_tasks p' ≡ₚ pool_tasks p.
Proof.
  intros Hstep. destruct Hstep as [t q ws rs fs w Hfree
    | q ws1 th ws2 rs fs w w' th' Hnd Hth | q ws1 r ws2 rs fs w];
    unfold pool_tasks; simpl.
  - rewrite omap_app. simpl. rewrite <- !app_assoc. simpl. done.
  - destruct (thread_step_task _ _ _ _ Hnd Hth) as (Ht & _ & _).
    rewrite !omap_app. simpl. by rewrite Ht.
  - rewrite map_app, !omap_app. simpl. rewrite <- !app_assoc. simpl.
    apply Permutation_app_head.
    rewrite (Permutation_middle (omap thread_task ws1)).
    done.
Qed.

Lemma step_no_raise p p' : step p p' → no_raise p → no_raise p'.
Proof.
  intros Hstep Hno e. specialize (Hno e).
  destruct Hstep as [t q ws rs fs w Hfree
    | q ws1 th ws2 rs fs w w' th' Hnd Hth | q ws1 r ws2 rs fs w];
    simpl in *; rewrite ?elem_of_app, ?elem_of_cons, ?elem_of_app in *.
  - intros [?|[?|Hin]]; [tauto|done|by inversion Hin].
  - destruct (thread_step_task _ _ _ _ Hnd Hth) as (_ & Hr & _).
    intros [?|[Heq|?]]; [tauto| |tauto]. by apply (Hr e).
  - intros [?|?]; tauto.
Qed.

Lemma step_failed_downloads p p' :
  step p p' →
  failed_downloads p = filter (λ r, status r = "failed") (results p) →
  failed_downloads p' = filter (λ r, status r = "failed") (results p').
Proof.
  intros Hstep Hf.
  destruct Hstep as [t q ws rs fs w Hfree
    | q ws1 th ws2 rs fs w w' th' Hnd Hth | q ws1 r ws2 rs fs w];
    simpl in *; try done.
  rewrite filter_app, Hf.
  destruct (String.eqb (status r) "failed") eqn:Heq.
  - apply String.eqb_eq in Heq. by rewrite filter_cons_True.
  - apply String.eqb_neq in Heq. rewrite filter_cons_False by done.
    by rewrite filter_nil, app_nil_r.
Qed.

Lemma step_cost p p' :
  step p p' → (pool_cost self ext p' < pool_cost self ext p)%nat.
Proof.
  intros Hstep.
  destruct Hstep as [t q ws rs fs w Hfree
    | q ws1 th ws2 rs fs w w' th' Hnd Hth | q ws1 r ws2 rs fs w];
    unfold pool_cost; simpl; rewrite ?sum_list_with_app; simpl.
  - lia.
  - destruct (thread_step_task _ _ _ _ Hnd Hth) as (_ & _ & Hlt). lia.
  - lia.
Qed.

Lemma submit_all_inv tasks w : pool_inv tasks (submit_all tasks w).
Proof.
  split; unfold pool_tasks, no_raise; simpl; try done.
  intros e He. by inversion He.
Qed.

Lemma rtc_step_inv tasks p p' :
  pool_inv tasks p → rtc step p p' → pool_inv tasks p'.
Proof.
  intros Hinv Hrtc. induction Hrtc as [|p p1 p2 Hstep _ IH]; [done|].
  apply IH. destruct Hinv as [Ht Hn Hf]. split.
  - by rewrite (step_tasks _ _ Hstep).
  - by eapply step_no_raise.
  - by eapply step_failed_downloads.
Qed.

(** A pool that holds no exception and is not finished can make a step. *)
Lemma step_progress p :
  0 < max_workers self → no_raise p → ¬ finished p → ∃ p', step p p'.
Proof.
  intros Hw Hno Hnf. destruct p as [q ws rs fs w].
  destruct ws as [|th ws].
  - destruct q as [|t q].
    + destruct Hnf. by split.
    + eexists. apply step_take. simpl. lia.
  - destruct (is_done th) eqn:Hd.
    + destruct th as [| | | |[r|e]]; try discriminate.
      * eexists. apply (step_result self ext q [] r ws).
      * destruct (Hno e). simpl. left.
    + destruct (thread_step self ext w th) as [w' th'] eqn:Hth.
      eexists. by apply (step_work self ext q [] th ws rs fs w w' th').
Qed.

(** Every pool reaches a finished state, whatever was scheduled so far. *)
Lemma step_terminates n : ∀ p,
  0 < max_workers self → no_raise p → (pool_cost self ext p ≤ n)%nat →
  ∃ p', rtc step p p' ∧ finished p'.
Proof.
  induction n as [|n IH]; intros p Hw Hno Hcost.
  - exists p. split; [done|].
    destruct p as [[|t q] [|th ws] rs fs w]; unfold pool_cost in *;
      simpl in *; try lia. by split.
  - destruct (decide (queue p = [] ∧ workers p = [])) as [Hfin|Hnf].
    { exists p. by split. }
    destruct (step_progress p Hw Hno Hnf) as [p1 Hstep].
    pose proof (step_cost _ _ Hstep) as Hlt.
    destruct (IH p1 Hw (step_no_raise _ _ Hstep Hno)) as (p' & Hrtc & Hfin);
      [lia|].
    exists p'. split; [|done]. by eapply rtc_l.
Qed.

(** No schedule is longer than the bound of its first state. *)
Lemma nsteps_bounded n p p' :
  nsteps step n p p' → (n + pool_cost self ext p' ≤ pool_cost self ext p)%nat.
Proof.
  induction 1 as [|n p p1 p2 Hstep _ IH]; [lia|].
  pose proof (step_cost _ _ Hstep). lia.
Qed.

End Pool.

(** ** Runs of [download_all_images] *)

Section Runs.
Import Downloader.
Context (self : ExcelImageDownloader) (ext : Externals).

Lemma prepare_tasks_from_length df urls : ∀ i tasks,
  prepare_tasks_from self ext df i urls = Return tasks →
  length tasks = length urls ∧ map (λ t : Task, t.1.1) tasks = urls ∧
  map (λ t : Task, t.2) tasks = seq i (length urls).
Proof.
  induction urls as [|url rest IH]; intros i tasks Hp; simpl in *.
  - by inversion Hp.
  - unfold bind in Hp.
    destruct (match df with
              | Some df0 => _
              | None => _
              end) as [df_row|e]; [|done].
    destruct (prepare_tasks_from self ext df (S i) rest) as [ts|e] eqn:Hrest;
      [|done].
    inversion Hp; subst. destruct (IH _ _ Hrest) as (Hl & Hu & Hi).
    simpl. by rewrite Hl, Hu, Hi.
Qed.

(** With the column present no task raises. *)
Lemma prepare_tasks_from_returns df urls : ∀ i,
  url_column self ∈ columns df →
  ∃ tasks, prepare_tasks_from self ext (Some df) i urls = Return tasks.
Proof.
  intros i Hcol. revert i.
  induction urls as [|url rest IH]; intros i; simpl; [eauto|].
  rewrite bool_decide_true by done. simpl.
  destruct (IH (S i)) as [ts ->]. simpl. eauto.
Qed.

Lemma load_excel_data_column df urls :
  load_excel_data self ext = Return (df, urls) →
  url_column self ∈ columns df ∧ urls = column_strings df (url_column self).
Proof.
  unfold load_excel_data, bind. intros H.
  destruct (if endswith (excel_path self) ".xlsx" then _ else _)
    as [df'|e]; [|done].
  destruct (bool_decide (url_column self ∈ columns df')) eqn:Hc;
    simpl in H; [|done].
  apply bool_decide_eq_true in Hc. by inversion H; subst.
Qed.

(** A run over prepared tasks: one exists, and every one returns the
    records of the tasks, each once, with the report of their count. *)
Lemma runs_answer_every_task df urls w tasks :
  prepare_tasks self ext df urls = Return tasks →
  0 < max_workers self →
  (∃ run, download_all_images self ext df urls w run) ∧
  (∀ run, download_all_images self ext df urls w run →
     ∃ p, rtc (pool_step self ext) (submit_all tasks w) p ∧ finished p ∧
          pool_inv tasks p ∧
          map outcome_task (results p) ≡ₚ tasks ∧
          run = after_pool p).
Proof.
  intros Hprep Hw. split.
  - destruct (step_terminates self ext (pool_cost self ext (submit_all tasks w))
                (submit_all tasks w) Hw) as (p & Hrtc & Hfin); [|lia|].
    { apply submit_all_inv. }
    eexists. by eapply run_return.
  - intros run Hrun.
    destruct Hrun as [e He|tasks' He Hle|tasks' p e He _ Hrtc Hin
                     |tasks' p He _ Hrtc Hfin]; try congruence; try lia.
    + assert (tasks' = tasks) as -> by congruence.
      pose proof (rtc_step_inv self ext tasks _ _ (submit_all_inv tasks w) Hrtc)
        as Hinv.
      by destruct (inv_no_raise _ _ Hinv e).
    + assert (tasks' = tasks) as -> by congruence.
      pose proof (rtc_step_inv self ext tasks _ _ (submit_all_inv tasks w) Hrtc)
        as Hinv.
      exists p. do 3 (split; [done|]). split; [|done].
      pose proof (inv_tasks _ _ Hinv) as Ht. unfold pool_tasks in Ht.
      destruct Hfin as [Hq Hws]. rewrite Hq, Hws in Ht. simpl in Ht.
      by rewrite app_nil_r in Ht.
Qed.

(** C1. Over a valid input source (the table and URLs [load_excel_data]
    returned) and with a positive number of workers, [download_all_images]
    has a run, and every run, whatever the schedule of the workers and
    whatever failed in them, returns one record for each task: the records
    answer the prepared tasks each exactly once, so their number, also the
    total of the report, is the number of URLs. *)
Theorem one_record_per_work_item df urls w :
  load_excel_data self ext = Return (df, urls) →
  0 < max_workers self →
  (∃ run, download_all_images self ext (Some df) urls w run) ∧
  (∀ run, download_all_images self ext (Some df) urls w run →
     ∃ tasks results report w',
       prepare_tasks self ext (Some df) urls = Return tasks ∧
       run = Returned results report w' ∧
       map outcome_task results ≡ₚ tasks ∧
       length results = length urls ∧
       total report = length urls).
Proof.
  intros Hload Hw.
  destruct (load_excel_data_column _ _ Hload) as [Hcol _].
  destruct (prepare_tasks_from_returns df urls 0%nat Hcol) as [tasks Hprep].
  destruct (runs_answer_every_task (Some df) urls w tasks Hprep Hw)
    as [Hex Hall].
  split; [done|]. intros run Hrun.
  destruct (Hall run Hrun) as (p & _ & _ & _ & Hperm & ->).
  destruct (prepare_tasks_from_length _ _ _ _ Hprep) as (Hlen & _).
  assert (length (results p) = length urls) as Hl.
  { rewrite <- Hlen, <- (Permutation_length Hperm). by rewrite length_map. }
  eexists _, _, _, _. repeat split; try done.
Qed.

End Runs.

(** ** Two runs over the same output directory *)

Section Rerun.
Import Downloader.
Context (self : ExcelImageDownloader) (ext : Externals).

Local Abbreviation step := (pool_step self ext).

Lemma os_path_exists_present w path :
  os_path_exists w path = true ↔ present w path.
Proof. unfold os_path_exists. apply bool_decide_eq_true. Qed.

Lemma os_path_exists_absent w path :
  os_path_exists w path = false ↔ ¬ present w path.
Proof. unfold os_path_exists. apply bool_decide_eq_false. Qed.

Lemma present_insert w path path' content :
  present w path → is_Some (<[path' := content]> (files w) !! path).
Proof.
  unfold present. intros H. rewrite lookup_insert. case_decide; eauto.
Qed.

(** The workers never remove a path. *)
Lemma thread_step_present w th w' th' path :
  thread_step self ext w th = (w', th') →
  present w path → present w' path.
Proof.
  intros Hstep Hp.
  destruct th as [[[url filename] index]|[[url filename] index]
                 |[[url filename] index] response
                 |[[url filename] index] offset chunks stop|r];
    simpl in Hstep.
  - by destruct (os_path_exists _ _); inversion Hstep; subst.
  - destruct (requests_get ext url (timeout self)) as [response|e];
      [destruct (raise_for_status response);
       [destruct (negb _)|]|]; by inversion Hstep; subst.
  - destruct (open_wb _ _); inversion Hstep; subst; [done|].
    by apply present_insert.
  - destruct chunks as [|chunk rest]; [destruct stop|];
      inversion Hstep; subst; try done.
    by apply present_insert.
  - by inversion Hstep; subst.
Qed.

Lemma record_kept_mono w w' r :
  (∀ path, present w path → present w' path) →
  record_kept self w r → record_kept self w' r.
Proof. intros Hm [Hs Hk]. split; [done|]. eauto. Qed.

Lemma thread_kept_mono w w' th :
  (∀ path, present w path → present w' path) →
  thread_kept self w th → thread_kept self w' th.
Proof.
  intros Hm. destruct th as [| | | |[r|e]]; simpl; eauto.
  by apply record_kept_mono.
Qed.

Lemma thread_step_kept w th w' th' :
  thread_step self ext w th = (w', th') →
  thread_kept self w th → thread_kept self w' th'.
Proof.
  intros Hstep Hk.
  destruct th as [[[url filename] index]|[[url filename] index]
                 |[[url filename] index] response
                 |[[url filename] index] offset chunks stop|r];
    simpl in Hstep.
  - destruct (os_path_exists _ _) eqn:Hex; inversion Hstep; subst; [|done].
    simpl. split; [set_solver|]. intros _. by apply os_path_exists_present.
  - unfold raise_for_status in Hstep.
    destruct (requests_get ext url (timeout self)) as [response|e];
      [destruct (http_error response); [|destruct (negb _)]|];
      rewrite ?download_image_except_failed in Hstep;
      inversion Hstep; subst; simpl; try done;
      (split; [set_solver|done]).
  - destruct (open_wb _ _); rewrite ?download_image_except_failed in Hstep;
      inversion Hstep; subst; simpl.
    + split; [set_solver|done].
    + unfold present, task_target. simpl. rewrite lookup_insert_eq. eauto.
  - destruct chunks as [|chunk rest]; [destruct stop|];
      rewrite ?download_image_except_failed in Hstep;
      inversion Hstep; subst; simpl.
    + split; [set_solver|done].
    + split; [set_solver|]. intros _. apply Hk.
    + unfold present, task_target. simpl. rewrite lookup_insert_eq. eauto.
  - by inversion Hstep; subst.
Qed.

Lemma step_kept p p' : step p p' → pool_kept self p → pool_kept self p'.
Proof.
  intros Hstep [Hws Hrs].
  destruct Hstep as [t q ws rs fs w Hfree
    | q ws1 th ws2 rs fs w w' th' Hnd Hth | q ws1 r ws2 rs fs w];
    unfold pool_kept in *; simpl in *.
  - split; [|done]. apply Forall_app. split; [done|]. by repeat constructor.
  - pose proof (λ path, thread_step_present _ _ _ _ path Hth) as Hm.
    apply Forall_app in Hws as [H1 H2]. apply Forall_cons in H2 as [H2 H3].
    split.
    + apply Forall_app. split; [|apply Forall_cons; split].
      * eapply Forall_impl; [done|]. intros. by eapply thread_kept_mono.
      * by eapply thread_step_kept.
      * eapply Forall_impl; [done|]. intros. by eapply thread_kept_mono.
    + eapply Forall_impl; [done|]. intros. by eapply record_kept_mono.
  - apply Forall_app in Hws as [H1 H2]. apply Forall_cons in H2 as [H2 H3].
    split.
    + apply Forall_app. by split.
    + apply Forall_app. split; [done|]. by apply Forall_singleton.
Qed.

Lemma rtc_step_kept p p' :
  rtc step p p' → pool_kept self p → pool_kept self p'.
Proof.
  induction 1 as [|p p1 p2 Hstep _ IH]; [done|].
  intros Hk. apply IH. by eapply step_kept.
Qed.

Lemma thread_step_skips w1 w th w' th' :
  (∀ path, present w1 path → present w path) →
  thread_step self ext w th = (w', th') →
  thread_skips self w1 th → thread_skips self w1 th'.
Proof.
  intros Hm Hstep Hk.
  destruct th as [[[url filename] index]|[[url filename] index]
                 |[[url filename] index] response
                 |[[url filename] index] offset chunks stop|r];
    simpl in Hstep.
  - destruct (os_path_exists _ _) eqn:Hex; inversion Hstep; subst; simpl.
    + done.
    + intros Hp. apply os_path_exists_absent in Hex. apply Hex. by apply Hm.
  - unfold raise_for_status in Hstep.
    destruct (requests_get ext url (timeout self)) as [response|e];
      [destruct (http_error response); [|destruct (negb _)]|];
      rewrite ?download_image_except_failed in Hstep;
      inversion Hstep; subst; simpl; try done;
      intros Hp; by destruct Hk.
  - destruct (open_wb _ _); rewrite ?download_image_except_failed in Hstep;
      inversion Hstep; subst; simpl; [|done].
    intros Hp. by destruct Hk.
  - destruct chunks as [|chunk rest]; [destruct stop|];
      rewrite ?download_image_except_failed in Hstep;
      inversion Hstep; subst; simpl; try done;
      intros Hp; by destruct Hk.
  - by inversion Hstep; subst.
Qed.

Lemma step_skips w1 p p' :
  step p p' → pool_skips self w1 p → pool_skips self w1 p'.
Proof.
  intros Hstep (Hm & Hws & Hrs).
  destruct Hstep as [t q ws rs fs w Hfree
    | q ws1 th ws2 rs fs w w' th' Hnd Hth | q ws1 r ws2 rs fs w];
    unfold pool_skips in *; simpl in *.
  - split; [done|]. split; [|done].
    apply Forall_app. split; [done|]. by repeat constructor.
  - apply Forall_app in Hws as [H1 H2]. apply Forall_cons in H2 as [H2 H3].
    split; [|split; [|done]].
    + intros path Hp. eapply thread_step_present; [done|]. by apply Hm.
    + apply Forall_app. split; [done|]. apply Forall_cons. split; [|done].
      by eapply thread_step_skips.
  - apply Forall_app in Hws as [H1 H2]. apply Forall_cons in H2 as [H2 H3].
    split; [done|]. split.
    + apply Forall_app. by split.
    + apply Forall_app. split; [done|]. by apply Forall_singleton.
Qed.

Lemma rtc_step_skips w1 p p' :
  rtc step p p' → pool_skips self w1 p → pool_skips self w1 p'.
Proof.
  induction 1 as [|p p1 p2 Hstep _ IH]; [done|].
  intros Hk. apply IH. by eapply step_skips.
Qed.

Lemma step_idle w1 p p' :
  step p p' → pool_idle self w1 p → pool_idle self w1 p'.
Proof.
  intros Hstep (Hw & Hq & Hws).
  destruct Hstep as [t q ws rs fs w Hfree
    | q ws1 th ws2 rs fs w w' th' Hnd Hth | q ws1 r ws2 rs fs w];
    unfold pool_idle in *; simpl in *.
  - apply Forall_cons in Hq as [Ht Hq]. split; [done|]. split; [done|].
    apply Forall_app. split; [done|]. by repeat constructor.
  - apply Forall_app in Hws as [H1 H2]. apply Forall_cons in H2 as [H2 H3].
    destruct th as [[[url filename] index]| | | |]; simpl in *;
      try done.
    subst w. apply os_path_exists_present in H2.
    unfold task_target in H2. simpl in H2. rewrite H2 in Hth.
    inversion Hth; subst. split; [done|]. split; [done|].
    apply Forall_app. split; [done|]. by apply Forall_cons.
  - apply Forall_app in Hws as [H1 H2]. apply Forall_cons in H2 as [H2 H3].
    split; [done|]. split; [done|]. apply Forall_app. by split.
Qed.

Lemma rtc_step_idle w1 p p' :
  rtc step p p' → pool_idle self w1 p → pool_idle self w1 p'.
Proof.
  induction 1 as [|p p1 p2 Hstep _ IH]; [done|].
  intros Hk. apply IH. by eapply step_idle.
Qed.

(** *** Counting records *)

Lemma count_status_total (rs : list Outcome) :
  Forall (λ r, status r ∈ ["success"; "failed"; "skipped"]) rs →
  (count_status "success" rs + count_status "skipped" rs +
   count_status "failed" rs = length rs)%nat.
Proof.
  unfold count_status. induction 1 as [|r rs Hr _ IH]; [done|].
  apply list_elem_of_In in Hr. simpl in Hr.
  rewrite !filter_cons.
  destruct Hr as [Hr|[Hr|[Hr|[]]]]; rewrite <- Hr;
    repeat case_decide; simpl; try lia; try congruence.
Qed.

Lemma count_status_none s (rs : list Outcome) :
  count_status s rs = 0%nat → Forall (λ r, status r ≠ s) rs.
Proof.
  unfold count_status. induction rs as [|r rs IH]; [done|].
  rewrite filter_cons. case_decide; simpl; [lia|]. intros Hz.
  apply Forall_cons. eauto.
Qed.

Lemma count_status_all s (rs : list Outcome) :
  Forall (λ r, status r = s) rs → count_status s rs = length rs.
Proof.
  unfold count_status. induction 1 as [|r rs Hr _ IH]; [done|].
  rewrite filter_cons_True by done. simpl. by rewrite IH.
Qed.

Lemma count_status_other s s' (rs : list Outcome) :
  s ≠ s' → Forall (λ r, status r = s) rs → count_status s' rs = 0%nat.
Proof.
  unfold count_status. intros Hne. induction 1 as [|r rs Hr _ IH]; [done|].
  rewrite filter_cons_False by congruence. done.
Qed.

Lemma kept_records_present w (rs : list Outcome) :
  Forall (record_kept self w) rs →
  (count_status "success" rs + count_status "skipped" rs
   ≤ length (tasks_present self w (map outcome_task rs)))%nat.
Proof.
  unfold count_status, tasks_present.
  induction 1 as [|r rs [Hs Hr] _ IH]; [done|].
  simpl. rewrite !filter_cons. unfold task_target at 1. simpl.
  repeat case_decide; simpl; try lia; try congruence.
  - destruct H1. apply Hr. congruence.
  - destruct H1. apply Hr. congruence.
Qed.

Lemma skipped_records_present w1 (rs : list Outcome) :
  Forall (λ r, present w1 (filepath_of self (filename r)) →
               status r = "skipped") rs →
  (length (tasks_present self w1 (map outcome_task rs))
   ≤ count_status "skipped" rs)%nat.
Proof.
  unfold count_status, tasks_present.
  induction 1 as [|r rs Hr _ IH]; [done|].
  simpl. rewrite !filter_cons. unfold task_target at 1. simpl.
  repeat case_decide; simpl; try lia. tauto.
Qed.

End Rerun.

Section RerunDownloader.
Import Downloader.
Context (self : ExcelImageDownloader).

(** What a returned run was made of. *)
Lemma returned_run ext df urls w rs rep w' :
  download_all_images self ext df urls w (Returned rs rep w') →
  ∃ tasks p,
    prepare_tasks self ext df urls = Return tasks ∧
    rtc (pool_step self ext) (submit_all tasks w) p ∧
    pool_inv tasks p ∧
    map outcome_task rs ≡ₚ tasks ∧
    rs = results p ∧ rep = generate_report rs ∧
    files w' = files (world p) ∧
    (failed_downloads p = [] → w' = world p).
Proof.
  intros Hrun.
  inversion Hrun as [| | |tasks p Hprep Hw Hrtc Hfin Heq]; subst.
  pose proof (rtc_step_inv self ext tasks _ _ (submit_all_inv tasks w) Hrtc)
    as Hinv.
  exists tasks, p. split; [done|]. split; [done|]. split; [done|].
  split.
  { pose proof (inv_tasks _ _ Hinv) as Ht. unfold pool_tasks in Ht.
    destruct Hfin as [Hq Hws]. rewrite Hq, Hws in Ht. simpl in Ht.
    by rewrite app_nil_r in Ht. }
  split; [done|]. split; [done|].
  destruct (failed_downloads p); simpl; done.
Qed.

(** The downloader run twice: what the first run answered without failure
    is skipped by the second, and a first run without failure leaves the
    second nothing to do. *)
Lemma rerun_downloader ext ext' df urls w res1 rep1 w1 res2 rep2 w2 :
  prepare_tasks self ext' df urls = prepare_tasks self ext df urls →
  download_all_images self ext df urls w (Returned res1 rep1 w1) →
  download_all_images self ext' df urls w1 (Returned res2 rep2 w2) →
  (successful rep1 + skipped rep1 ≤ skipped rep2)%nat ∧
  (failed rep1 = 0%nat →
     skipped rep2 = (successful rep1 + skipped rep1)%nat ∧
     successful rep2 = 0%nat ∧ failed rep2 = 0%nat ∧ w2 = w1).
Proof.
  intros Hsame Hrun1 Hrun2.
  destruct (returned_run _ _ _ _ _ _ _ Hrun1)
    as (tasks & p1 & Hprep1 & Hrtc1 & Hinv1 & Hperm1 & -> & -> & Hf1 & _).
  destruct (returned_run _ _ _ _ _ _ _ Hrun2)
    as (tasks2 & p2 & Hprep2 & Hrtc2 & Hinv2 & Hperm2 & -> & -> & Hf2 & Hw2).
  assert (tasks2 = tasks) as -> by congruence.
  (* the first run keeps what it answered *)
  assert (pool_kept self (submit_all tasks w)) as Hk0.
  { split; simpl; constructor. }
  destruct (rtc_step_kept self ext _ _ Hrtc1 Hk0) as [_ Hkept].
  assert (Forall (record_kept self w1) (results p1)) as Hkept1.
  { eapply Forall_impl; [done|]. intros r [Hs Hp]. split; [done|].
    unfold present in *. by rewrite Hf1. }
  (* the second run skips what it finds *)
  assert (pool_skips self w1 (submit_all tasks w1)) as Hs0.
  { split; [done|]. split; simpl; constructor. }
  destruct (rtc_step_skips self ext' w1 _ _ Hrtc2 Hs0) as (_ & _ & Hskips).
  assert (Forall (λ r, status r ∈ ["success"; "failed"; "skipped"])
            (results p1)) as Hthree.
  { eapply Forall_impl; [done|]. by intros r [Hs _]. }
  pose proof (kept_records_present self w1 _ Hkept1) as Hle1.
  pose proof (skipped_records_present self w1 _ Hskips) as Hle2.
  assert (length (tasks_present self w1 (map outcome_task (results p1))) =
          length (tasks_present self w1 (map outcome_task (results p2))))
    as Hmid.
  { unfold tasks_present. by rewrite Hperm1, Hperm2. }
  simpl. split; [lia|]. intros Hnone.
  (* no failure: every target exists *)
  assert (length (results p2) = length (results p1)) as Hlen.
  { rewrite <- (length_map outcome_task (results p2)).
    rewrite <- (length_map outcome_task (results p1)).
    by rewrite Hperm1, Hperm2. }
  pose proof (count_status_total _ Hthree) as Htot.
  pose proof (length_filter (λ r, status r = "skipped") (results p2)) as Hub.
  fold (count_status "skipped" (results p2)) in Hub.
  assert (count_status "skipped" (results p2) = length (results p2)) as Hall
    by lia.
  assert (Forall (λ r, status r = "skipped") (results p2)) as Hallskip.
  { unfold count_status in Hall. clear -Hall.
    induction (results p2) as [|r rs IH]; [done|].
    rewrite filter_cons in Hall.
    pose proof (length_filter (λ r, status r = "skipped") rs).
    case_decide; simpl in Hall; [|lia].
    apply Forall_cons. split; [done|]. apply IH. lia. }
  split; [lia|].
  split; [by apply (count_status_other "skipped")|].
  split; [by apply (count_status_other "skipped")|].
  assert (Forall (λ t, present w1 (task_target self t)) tasks) as Hpres.
  { rewrite <- Hperm1. apply Forall_fmap.
    pose proof (count_status_none _ _ Hnone) as Hnf.
    apply Forall_forall. intros r Hr.
    rewrite Forall_forall in Hkept1. rewrite Forall_forall in Hnf.
    destruct (Hkept1 r Hr) as [_ Hp]. apply Hp. by apply Hnf. }
  assert (pool_idle self w1 (submit_all tasks w1)) as Hi0.
  { split; [done|]. split; [done|]. simpl. constructor. }
  destruct (rtc_step_idle self ext' w1 _ _ Hrtc2 Hi0) as (Hworld & _ & _).
  rewrite <- Hworld. apply Hw2.
  rewrite (inv_failed _ _ Hinv2).
  apply (count_status_other "skipped" "failed") in Hallskip; [|done].
  unfold count_status in Hallskip. by apply nil_length_inv.
Qed.

End RerunDownloader.

(** ** The loop of the converter *)

Section ConverterLoop.
Import Converter.
Context (ext : Externals) (output_folder output_format : string).

Local Abbreviation out := (output_path_of output_folder output_format).
Local Abbreviation item := (bulk_convert_item ext output_folder output_format).
Local Abbreviation loop := (bulk_convert_loop ext output_folder output_format).

(** One turn of the loop returns, counts the item once, removes no path, and
    leaves the output of a converted or skipped item on the disk. *)
Lemma bulk_convert_item_returns overwrite c w x :
  ∃ c' w',
    item overwrite (c, w) x = Return (c', w') ∧
    (∀ path, is_Some (files w !! path) → is_Some (files w' !! path)) ∧
    ((converted_count c' = converted_count c + 1 ∧
      skipped_count c' = skipped_count c ∧
      failed_count c' = failed_count c ∧ is_Some (files w' !! out x)) ∨
     (converted_count c' = converted_count c ∧
      skipped_count c' = skipped_count c + 1 ∧
      failed_count c' = failed_count c ∧ is_Some (files w' !! out x) ∧
      overwrite = false ∧ files w' = files w ∧ calls w' = calls w) ∨
     (converted_count c' = converted_count c ∧
      skipped_count c' = skipped_count c ∧
      failed_count c' = failed_count c + 1 ∧
      ¬ (is_Some (files w !! out x) ∧ overwrite = false)))%nat.
Proof.
  unfold bulk_convert_item.
  destruct (path_exists w (out x) && negb overwrite) eqn:Hskip.
  - apply andb_true_iff in Hskip as [Hex Hov].
    apply bool_decide_eq_true in Hex. apply negb_true_iff in Hov.
    eexists _, _. split; [reflexivity|]. split; [done|].
    right. left. simpl. done.
  - destruct (convert_image_returns ext w x (out x) output_format)
      as (b & w' & -> & Hb & Hm).
    eexists _, _. split; [reflexivity|]. split; [done|].
    destruct b; simpl.
    + left. auto.
    + right. right. do 3 (split; [done|]). intros [Hex ->].
      apply andb_false_iff in Hskip as [Hskip|Hskip]; [|done].
      by apply bool_decide_eq_false in Hskip.
Qed.

Lemma bulk_convert_loop_cons overwrite x rest st :
  loop overwrite (x :: rest) st =
  bind (item overwrite st x) (loop overwrite rest).
Proof. done. Qed.

(** The loop returns; each input is counted once; what was converted or
    skipped has its output on the disk at the end. *)
Lemma bulk_convert_loop_returns overwrite image_files : ∀ c w,
  ∃ c' w',
    loop overwrite image_files (c, w) = Return (c', w') ∧
    (∀ path, is_Some (files w !! path) → is_Some (files w' !! path)) ∧
    (converted_count c' + skipped_count c' + failed_count c' =
     converted_count c + skipped_count c + failed_count c +
     length image_files)%nat ∧
    (converted_count c ≤ converted_count c')%nat ∧
    (skipped_count c ≤ skipped_count c')%nat ∧
    (failed_count c ≤ failed_count c')%nat ∧
    (converted_count c' + skipped_count c'
     ≤ converted_count c + skipped_count c +
       length (outputs_present output_folder output_format w'
                 image_files))%nat.
Proof.
  induction image_files as [|x rest IH]; intros c w.
  - eexists _, _. split; [reflexivity|]. split; [done|]. simpl. lia.
  - rewrite bulk_convert_loop_cons.
    destruct (bulk_convert_item_returns overwrite c w x)
      as (c1 & w1 & -> & Hm1 & Hcase).
    simpl. destruct (IH c1 w1) as (c' & w' & -> & Hm & Hsum & ? & ? & ? & Hle).
    eexists _, _. split; [reflexivity|]. split; [by eauto|].
    unfold outputs_present in *. rewrite filter_cons.
    destruct Hcase as [(?&?&?&Hp)|[(?&?&?&Hp&_)|(?&?&?&_)]];
      try (apply Hm in Hp; rewrite decide_True by done; simpl);
      try case_decide; simpl; lia.
Qed.

(** With overwrite not requested, an input whose output is already there at
    the start is skipped. *)
Lemma bulk_convert_loop_skips (P : string → Prop) `{∀ x, Decision (P x)}
    image_files : ∀ c w c' w',
  (∀ path, P path → is_Some (files w !! path)) →
  loop false image_files (c, w) = Return (c', w') →
  (skipped_count c + length (filter (λ x, P (out x)) image_files)
   ≤ skipped_count c')%nat.
Proof.
  induction image_files as [|x rest IH]; intros c w c' w' HP Hloop.
  - inversion Hloop; subst. simpl. lia.
  - rewrite bulk_convert_loop_cons in Hloop.
    destruct (bulk_convert_item_returns false c w x)
      as (c1 & w1 & Hitem & Hm1 & Hcase).
    rewrite Hitem in Hloop. simpl in Hloop.
    assert (∀ path, P path → is_Some (files w1 !! path)) as HP1 by eauto.
    specialize (IH _ _ _ _ HP1 Hloop).
    rewrite filter_cons.
    destruct Hcase as [(?&?&?&_)|[(?&?&?&_)|(?&?&?&Hno)]];
      case_decide; simpl; try lia.
    + (* converted although present: the test failed *)
      exfalso. unfold bulk_convert_item in Hitem.
      assert (path_exists w (out x) = true) as Hex.
      { apply bool_decide_eq_true. eauto. }
      rewrite Hex in Hitem. simpl in Hitem. inversion Hitem; subst.
      simpl in *. lia.
    + destruct Hno. split; [eauto|done].
Qed.

(** With overwrite not requested and every output already there, the loop
    only skips: no call to the imaging library, no file changed. *)
Lemma bulk_convert_loop_idle image_files : ∀ c w,
  Forall (λ x, is_Some (files w !! out x)) image_files →
  ∃ c' w',
    loop false image_files (c, w) = Return (c', w') ∧
    skipped_count c' = (skipped_count c + length image_files)%nat ∧
    converted_count c' = converted_count c ∧
    failed_count c' = failed_count c ∧
    files w' = files w ∧ calls w' = calls w.
Proof.
  induction image_files as [|x rest IH]; intros c w Hall.
  - eexists _, _. split; [reflexivity|]. simpl. repeat split; lia.
  - apply Forall_cons in Hall as [Hx Hrest].
    rewrite bulk_convert_loop_cons. unfold bulk_convert_item.
    assert (path_exists w (out x) = true) as ->
      by (by apply bool_decide_eq_true).
    simpl.
    edestruct (IH {| converted_count := converted_count c;
                     skipped_count := skipped_count c + 1;
                     failed_count := failed_count c |}
                  (print ("Skipped (exists): " +:+ path_name x) w))
      as (c' & w' & -> & Hs & Hc & Hf & Hfiles & Hcalls); [done|].
    eexists _, _. split; [reflexivity|]. simpl in *.
    repeat split; try done; lia.
Qed.

End ConverterLoop.

Section RerunConverter.
Import Converter.

(** A call of [bulk_convert] that got to its summary ran the loop over the
    collected files, from counters at zero; printing touches no file. *)
Lemma bulk_convert_returned ext w input_folder output_folder output_format
    recursive overwrite c w' :
  bulk_convert ext w input_folder output_folder output_format recursive
    overwrite = Return (Some c, w') →
  ∃ w0 w1,
    files w0 = files w ∧ calls w0 = calls w ∧
    bulk_convert_loop ext output_folder output_format overwrite
      (collect_image_files ext input_folder recursive) (zero_counts, w0)
      = Return (c, w1) ∧
    files w' = files w1 ∧ calls w' = calls w1.
Proof.
  unfold bulk_convert. intros H.
  destruct (negb _); [by inversion H|].
  destruct (mkdir ext output_folder); [done|].
  destruct (collect_image_files ext input_folder recursive) as [|x l] eqn:Hl;
    [by inversion H|].
  unfold bind in H.
  destruct (bulk_convert_loop ext output_folder output_format overwrite
              (x :: l) _) as [[c1 wb]|e] eqn:Hloop; [|done].
  inversion H; subst.
  refine (ex_intro _ _ (ex_intro _ wb (conj _ (conj _ (conj Hloop _)))));
    done.
Qed.

(** The converter run twice without overwrite: what the first run converted
    or skipped is skipped by the second, and a first run without failure
    leaves the second nothing to do. *)
Lemma rerun_converter ext ext' w input_folder output_folder output_format
    recursive c1 w1 c2 w2 :
  collect_image_files ext' input_folder recursive =
  collect_image_files ext input_folder recursive →
  bulk_convert ext w input_folder output_folder output_format recursive
    false = Return (Some c1, w1) →
  bulk_convert ext' w1 input_folder output_folder output_format recursive
    false = Return (Some c2, w2) →
  (converted_count c1 + skipped_count c1 ≤ skipped_count c2)%nat ∧
  (failed_count c1 = 0%nat →
     skipped_count c2 = (converted_count c1 + skipped_count c1)%nat ∧
     converted_count c2 = 0%nat ∧ failed_count c2 = 0%nat ∧
     files w2 = files w1 ∧ calls w2 = calls w1).
Proof.
  intros Hsame Hrun1 Hrun2.
  destruct (bulk_convert_returned _ _ _ _ _ _ _ _ _ Hrun1)
    as (wa & wb & Hfa & Hca & Hloop1 & Hfb & Hcb).
  destruct (bulk_convert_returned _ _ _ _ _ _ _ _ _ Hrun2)
    as (wc & wd & Hfc & Hcc & Hloop2 & Hfd & Hcd).
  rewrite Hsame in Hloop2.
  set (image_files := collect_image_files ext input_folder recursive) in *.
  destruct (bulk_convert_loop_returns ext output_folder output_format false
              image_files zero_counts wa)
    as (c & w' & Heq & _ & Hsum & _ & _ & _ & Hle).
  rewrite Hloop1 in Heq. inversion Heq; subst c w'. clear Heq.
  simpl in Hsum, Hle.
  pose proof (bulk_convert_loop_skips ext' output_folder output_format
                (λ path, is_Some (files wb !! path)) image_files
                zero_counts wc c2 wd) as Hskip.
  simpl in Hskip.
  assert (∀ path, is_Some (files wb !! path) → is_Some (files wc !! path))
    as Hin by (intros path; by rewrite Hfc, Hfb).
  specialize (Hskip Hin Hloop2).
  unfold outputs_present in Hle.
  split; [lia|]. intros Hnone.
  pose proof (length_filter
                (λ x, is_Some (files wb !! output_path_of output_folder
                                              output_format x))
                image_files) as Hub.
  assert (Forall (λ x, is_Some (files wc !! output_path_of output_folder
                                            output_format x)) image_files)
    as Hall.
  { rewrite Hfc, Hfb.
    assert (length (filter (λ x, is_Some (files wb !! output_path_of
                                  output_folder output_format x)) image_files)
            = length image_files) as Hfull by lia.
    clear -Hfull. induction image_files as [|x l IH]; [done|].
    rewrite filter_cons in Hfull.
    pose proof (length_filter
                  (λ x, is_Some (files wb !! output_path_of output_folder
                                                output_format x)) l).
    case_decide; simpl in Hfull; [|lia].
    apply Forall_cons. split; [done|]. apply IH. lia. }
  destruct (bulk_convert_loop_idle ext' output_folder output_format
              image_files zero_counts wc Hall)
    as (c & w' & Heq & Hs & Hc & Hf & Hfiles & Hcalls).
  rewrite Hloop2 in Heq. inversion Heq; subst c w'. clear Heq.
  simpl in *. split; [lia|]. split; [done|]. split; [done|].
  split; congruence.
Qed.

End RerunConverter.

(** C5, as the code has it.  A second run over the unchanged source and
    output directory, overwrite not requested, skips every item the first
    run recorded as success (converted) or as skipped: its skipped count is
    at least the sum of the two.  When the first run had no failed item the
    second skips every item, so that its skipped count is that sum, its
    other counts are zero, and it writes no file and invokes no external
    operation. *)
Theorem second_run_skips_what_exists :
  (∀ self ext ext' df urls w res1 rep1 w1 res2 rep2 w2,
     Downloader.prepare_tasks self ext' df urls =
     Downloader.prepare_tasks self ext df urls →
     Downloader.download_all_images self ext df urls w
       (Downloader.Returned res1 rep1 w1) →
     Downloader.download_all_images self ext' df urls w1
       (Downloader.Returned res2 rep2 w2) →
     (Downloader.successful rep1 + Downloader.skipped rep1
      ≤ Downloader.skipped rep2)%nat ∧
     (Downloader.failed rep1 = 0%nat →
        Downloader.skipped rep2 =
          (Downloader.successful rep1 + Downloader.skipped rep1)%nat ∧
        Downloader.successful rep2 = 0%nat ∧
        Downloader.failed rep2 = 0%nat ∧ w2 = w1)) ∧
  (∀ ext ext' w input_folder output_folder output_format recursive
     c1 w1 c2 w2,
     Converter.collect_image_files ext' input_folder recursive =
     Converter.collect_image_files ext input_folder recursive →
     Converter.bulk_convert ext w input_folder output_folder output_format
       recursive false = Return (Some c1, w1) →
     Converter.bulk_convert ext' w1 input_folder output_folder output_format
       recursive false = Return (Some c2, w2) →
     (Converter.converted_count c1 + Converter.skipped_count c1
      ≤ Converter.skipped_count c2)%nat ∧
     (Converter.failed_count c1 = 0%nat →
        Converter.skipped_count c2 =
          (Converter.converted_count c1 + Converter.skipped_count c1)%nat ∧
        Converter.converted_count c2 = 0%nat ∧
        Converter.failed_count c2 = 0%nat ∧
        Converter.files w2 = Converter.files w1 ∧
        Converter.calls w2 = Converter.calls w1)).
Proof.
  split.
  - intros. by eapply rerun_downloader.
  - intros. by eapply rerun_converter.
Qed.

(** ** The schedule that runs one call after the other *)

Section InOrder.
Import Downloader.
Context (self : ExcelImageDownloader) (ext : Externals).

Local Abbreviation step := (pool_step self ext).

Lemma solo_work q rs fs w th w' th' :
  is_done th = false →
  thread_step self ext w th = (w', th') →
  step (solo q rs fs w th) (solo q rs fs w' th').
Proof. intros Hd Hth. by apply (step_work self ext q [] th [] rs fs w w' th'). Qed.

(** A worker alone writes the chunks it has left, then returns. *)
Lemma writing_runs q rs fs url filename index stop chunks : ∀ offset w,
  rtc step
    (solo q rs fs w (Writing (url, filename, index) offset chunks stop))
    (solo q rs fs
       (write_body (filepath_of self filename) offset chunks w)
       (Done (match stop with
              | Some e => download_image_except url filename index e
              | None => Return (record index url filename "success" None)
              end))).
Proof.
  induction chunks as [|chunk rest IH]; intros offset w.
  - apply rtc_once. apply solo_work; [done|]. simpl. by destruct stop.
  - eapply rtc_l; [|apply IH]. by apply solo_work.
Qed.

(** A worker alone does what [download_image] does. *)
Lemma call_runs q rs fs w url filename index :
  rtc step
    (solo q rs fs w (Call (url, filename, index)))
    (solo q rs fs (download_image self ext w url filename index).2
       (Done (download_image self ext w url filename index).1)).
Proof.
  split_call self ext w url filename; simpl.
  - apply rtc_once. apply solo_work; [done|]. simpl. by rewrite Hexists.
  - eapply rtc_l; [apply solo_work; [done|]; simpl; by rewrite Hexists|].
    apply rtc_once. apply solo_work; [done|]. simpl.
    unfold raise_for_status. rewrite Hget, Hstatus.
    by rewrite download_image_except_failed.
  - eapply rtc_l; [apply solo_work; [done|]; simpl; by rewrite Hexists|].
    eapply rtc_l; [apply solo_work; [done|]; simpl;
                   unfold raise_for_status; by rewrite Hget, Hstatus, Himage|].
    apply rtc_once. apply solo_work; [done|]. simpl. rewrite Hopen.
    by rewrite download_image_except_failed.
  - eapply rtc_l; [apply solo_work; [done|]; simpl; by rewrite Hexists|].
    eapply rtc_l; [apply solo_work; [done|]; simpl;
                   unfold raise_for_status; by rewrite Hget, Hstatus, Himage|].
    eapply rtc_l; [apply solo_work; [done|]; simpl; by rewrite Hopen|].
    rewrite Hstop.
    pose proof (writing_runs q rs fs url filename index (Some e)
                  (body response) 0%nat
                  (create_file (filepath_of self filename)
                     (note_request url w))) as Hw.
    cbv iota beta in Hw. by rewrite download_image_except_failed in Hw.
  - eapply rtc_l; [apply solo_work; [done|]; simpl; by rewrite Hexists|].
    eapply rtc_l; [apply solo_work; [done|]; simpl;
                   unfold raise_for_status; by rewrite Hget, Hstatus, Himage|].
    eapply rtc_l; [apply solo_work; [done|]; simpl; by rewrite Hopen|].
    rewrite Hstop. apply writing_runs.
  - eapply rtc_l; [apply solo_work; [done|]; simpl; by rewrite Hexists|].
    apply rtc_once. apply solo_work; [done|]. simpl.
    unfold raise_for_status. by rewrite Hget, Hstatus, Himage.
  - eapply rtc_l; [apply solo_work; [done|]; simpl; by rewrite Hexists|].
    apply rtc_once. apply solo_work; [done|]. simpl.
    rewrite Hget. by rewrite download_image_except_failed.
Qed.

(** Running the calls in order is one of the schedules of the pool. *)
Lemma run_in_order_steps tasks : ∀ rs fs w p,
  0 < max_workers self →
  run_in_order self ext tasks
    {| queue := tasks; workers := []; results := rs; failed_downloads := fs;
       world := w |} = Return p →
  rtc step
    {| queue := tasks; workers := []; results := rs; failed_downloads := fs;
       world := w |} p ∧ finished p.
Proof.
  induction tasks as [|[[url filename] index] rest IH];
    intros rs fs w p Hw Hrun; simpl in Hrun.
  - inversion Hrun; subst. by split.
  - destruct (download_image self ext w url filename index) as [[r|e] w']
      eqn:Hcall; [|done].
    destruct (IH _ _ _ _ Hw Hrun) as [Hrtc Hfin]. split; [|done].
    eapply rtc_l.
    { apply (step_take self ext (url, filename, index) rest [] rs fs w).
      simpl. lia. }
    eapply rtc_trans.
    { apply (call_runs rest rs fs w url filename index). }
    rewrite Hcall. simpl.
    eapply rtc_l; [|exact Hrtc].
    apply (step_result self ext rest [] r [] rs fs w').
Qed.

Lemma run_in_order_sound df urls w tasks p :
  prepare_tasks self ext df urls = Return tasks →
  0 < max_workers self →
  run_in_order self ext tasks (submit_all tasks w) = Return p →
  download_all_images self ext df urls w (after_pool p).
Proof.
  intros Hprep Hw Hrun.
  destruct (run_in_order_steps tasks [] [] w p Hw Hrun) as [Hrtc Hfin].
  by eapply run_return.
Qed.

End InOrder.

(** ** Failures *)

Section Failures.
Import Downloader.

Lemma thread_step_csv self ext w th w' th' :
  thread_step self ext w th = (w', th') → csv_files w' = csv_files w.
Proof.
  intros Hstep.
  destruct th as [[[url filename] index]|[[url filename] index]
                 |[[url filename] index] response
                 |[[url filename] index] offset chunks stop|r];
    simpl in Hstep.
  - by destruct (os_path_exists _ _); inversion Hstep; subst.
  - destruct (requests_get ext url (timeout self)) as [response|e];
      [destruct (raise_for_status response);
       [destruct (negb _)|]|]; by inversion Hstep; subst.
  - by destruct (open_wb _ _); inversion Hstep; subst.
  - by destruct chunks as [|chunk rest]; [destruct stop|];
      inversion Hstep; subst.
  - by inversion Hstep; subst.
Qed.

Lemma rtc_step_csv self ext p p' :
  rtc (pool_step self ext) p p' → csv_files (world p') = csv_files (world p).
Proof.
  induction 1 as [|p p1 p2 Hstep _ IH]; [done|]. rewrite IH.
  destruct Hstep as [| q ws1 th ws2 rs fs w w' th' Hnd Hth |]; simpl;
    try done.
  by eapply thread_step_csv.
Qed.

(** The [url] column of the table of a list of records lists their URLs. *)
Lemma retry_list_urls (records : list Outcome) :
  column_strings (DataFrame_of_records records) "url" = map url records.
Proof.
  unfold column_strings, df_column, DataFrame_of_records.
  destruct records as [|r0 records]; [done|].
  generalize (r0 :: records). clear. intros records. simpl.
  induction records as [|r rs IH]; [done|].
  rewrite !map_cons, filter_cons_True by done.
  rewrite map_cons. f_equal. apply IH.
Qed.

Lemma retry_list_rows (records : list Outcome) :
  length (rows (DataFrame_of_records records)) = length records.
Proof. destruct records; [done|]. simpl. by rewrite length_map. Qed.

(** C3, as the code has it.  An exception of the external operation stays
    inside the executor.  Downloader: when a call meets the exception [e],
    [download_image] returns the "failed" record whose error is [str(e)],
    a string that is empty when the exception carries no message.
    Converter: when the imaging library raises [e], [convert_image] prints
    "Error converting <path>: <str(e)>" and returns [False].  Neither stops
    the other items: no step of the pool leaves an exception in a future,
    a pool that is not finished can always make a step and no schedule is
    longer than the bound of the submitted tasks, so every run of
    [download_all_images] returns its records with their report; the loop
    of the converter returns with every file counted. *)
Theorem exceptions_become_failed_records :
  (∀ self ext w url filename index e,
     os_path_exists w (filepath_of self filename) = false →
     raised_in_call self ext url filename = Some e →
     ∃ w', download_image self ext w url filename index =
           (Return (record index url filename "failed" (Some (str e))), w')) ∧
  (∀ cext cw input_path output_path output_format e residue,
     Converter.pil cext (Converter.files cw) input_path
       (Converter.get_pillow_format output_format)
       = Converter.Failed e residue →
     ∃ cw', Converter.convert_image cext cw input_path output_path
              output_format = (Return false, cw') ∧
            Converter.stdout cw' = Converter.stdout cw ++
              ["Error converting " +:+ input_path +:+ ": " +:+ str e]) ∧
  (∀ self ext df urls w tasks,
     prepare_tasks self ext df urls = Return tasks →
     0 < max_workers self →
     (∀ n p, nsteps (pool_step self ext) n (submit_all tasks w) p →
        (n ≤ pool_cost self ext (submit_all tasks w))%nat ∧
        no_raise p ∧
        (¬ finished p → ∃ p', pool_step self ext p p')) ∧
     (∃ run, download_all_images self ext df urls w run) ∧
     (∀ run, download_all_images self ext df urls w run →
        ∃ results w', run = Returned results (generate_report results) w')) ∧
  (∀ cext output_folder output_format overwrite image_files c cw,
     ∃ c' cw',
       Converter.bulk_convert_loop cext output_folder output_format overwrite
         image_files (c, cw) = Return (c', cw') ∧
       (Converter.converted_count c' + Converter.skipped_count c' +
        Converter.failed_count c' =
        Converter.converted_count c + Converter.skipped_count c +
        Converter.failed_count c + length image_files)%nat).
Proof.
  split; [|split; [|split]].
  - intros self ext w url filename index e Hex Hraised.
    unfold raised_in_call in Hraised.
    unfold download_image, download_image_try, raise_for_status.
    rewrite Hex.
    destruct (requests_get ext url (timeout self)) as [response|e'].
    + destruct (http_error response) as [msg|].
      * inversion Hraised; subst. rewrite download_image_except_failed. eauto.
      * destruct (contains "image" (default "" (content_type response)));
          [|done]. simpl.
        destruct (open_wb ext (filepath_of self filename)) as [e'|].
        -- inversion Hraised; subst.
           rewrite download_image_except_failed. eauto.
        -- rewrite Hraised. rewrite download_image_except_failed. eauto.
    + inversion Hraised; subst. rewrite download_image_except_failed. eauto.
  - intros cext cw input_path output_path output_format e residue Hpil.
    destruct (convert_image_failed cext cw input_path output_path
                output_format e residue Hpil) as (cw' & Hc & _ & _ & Hout).
    eauto.
  - intros self ext df urls w tasks Hprep Hw. split; [|split].
    + intros n p Hn.
      pose proof (nsteps_bounded self ext _ _ _ Hn) as Hb.
      pose proof (rtc_step_inv self ext tasks _ _ (submit_all_inv tasks w)
                    (rtc_nsteps_2 _ _ _ Hn)) as Hinv.
      split; [lia|]. split; [apply Hinv|].
      intros Hnf. apply step_progress; [done|apply Hinv|done].
    + apply (runs_answer_every_task self ext df urls w tasks Hprep Hw).
    + intros run Hrun.
      destruct (runs_answer_every_task self ext df urls w tasks Hprep Hw)
        as [_ Hall].
      destruct (Hall run Hrun) as (p & _ & _ & _ & _ & ->).
      unfold after_pool. eauto.
  - intros cext output_folder output_format overwrite image_files c cw.
    destruct (bulk_convert_loop_returns cext output_folder output_format
                overwrite image_files c cw)
      as (c' & cw' & Hloop & _ & Hsum & _).
    eauto.
Qed.

(** C6, as the code has it.  After a run with failed downloads the failed
    records are in the CSV file [failed_downloads.csv], a table with the
    columns index, url, filename, status and error and one row for each
    failed record, whose [url] column lists the URLs of the failed work
    items, no more and no fewer; a run without failure writes no CSV file.
    The loader reads [.xlsx] and [.xls] files only: given the CSV file as
    its source it raises "Unsupported file format" without reading it. *)
Theorem retry_list_is_written_as_csv :
  (∀ self ext df urls w results report w',
     download_all_images self ext df urls w (Returned results report w') →
     (0 < failed report →
        csv_files w' !! "failed_downloads.csv" =
          Some (DataFrame_of_records
                  (filter (λ r, status r = "failed") results)) ∧
        columns (DataFrame_of_records
                   (filter (λ r, status r = "failed") results)) =
          ["index"; "url"; "filename"; "status"; "error"] ∧
        length (rows (DataFrame_of_records
                        (filter (λ r, status r = "failed") results)))
          = failed report ∧
        column_strings
          (DataFrame_of_records (filter (λ r, status r = "failed") results))
          "url" = map url (filter (λ r, status r = "failed") results))%nat ∧
     (failed report = 0%nat → csv_files w' = csv_files w)) ∧
  (∀ self ext,
     endswith (excel_path self) ".xlsx" = false →
     endswith (excel_path self) ".xls" = false →
     load_excel_data self ext =
     Raise (Exception "Unsupported file format. Use .xlsx or .xls")) ∧
  endswith "failed_downloads.csv" ".xlsx" = false ∧
  endswith "failed_downloads.csv" ".xls" = false.
Proof.
  split; [|split; [|done]].
  - intros self ext df urls w results report w' Hrun.
    inversion Hrun as [| | |tasks p Hprep Hw Hrtc Hfin Heq]; subst.
    pose proof (rtc_step_inv self ext tasks _ _ (submit_all_inv tasks w) Hrtc)
      as Hinv.
    pose proof (rtc_step_csv self ext _ _ Hrtc) as Hcsv. simpl in Hcsv.
    rewrite (inv_failed _ _ Hinv). simpl.
    fold (count_status "failed" (results p)). unfold count_status.
    split.
    + intros Hpos.
      destruct (filter (λ r, status r = "failed") (results p))
        as [|r0 fs] eqn:Hfs; [simpl in Hpos; lia|].
      rewrite <- Hfs. split.
      { unfold save_failed_downloads, to_csv. simpl.
        by rewrite lookup_insert_eq. }
      split; [by rewrite Hfs|].
      split; [apply retry_list_rows|apply retry_list_urls].
    + intros Hzero. apply nil_length_inv in Hzero. by rewrite Hzero.
  - intros self ext Hx Hl. unfold load_excel_data. by rewrite Hx, Hl.
Qed.

End Failures.

(** ** The order and the targets of the work items *)

Section Enumeration.

Lemma flat_map_groups {A B} (f : A → list B) (l : list A) i j a b :
  l !! i = Some a → l !! j = Some b → (i < j)%nat →
  ∃ before between after,
    flat_map f l = before ++ f a ++ between ++ f b ++ after.
Proof.
  intros Hi Hj Hlt.
  rewrite <- (take_drop_middle l i a Hi).
  assert (drop (S i) l !! (j - S i)%nat = Some b) as Hj'.
  { rewrite lookup_drop. by replace (S i + (j - S i))%nat with j by lia. }
  rewrite <- (take_drop_middle (drop (S i) l) _ b Hj').
  exists (flat_map f (take i l)),
         (flat_map f (take (j - S i) (drop (S i) l))),
         (flat_map f (drop (S (j - S i)) (drop (S i) l))).
  rewrite flat_map_app. simpl. rewrite flat_map_app. simpl.
  by rewrite <- ?app_assoc.
Qed.

Lemma get_filename_of_named_file ext url i df_row path :
  Downloader.urlparse_path ext url = Return path →
  char_in "." (os_path_basename path) = true →
  Downloader.get_filename ext url i df_row =
  filter_chars (λ c, char_in c Downloader.safe_chars)
    (match df_row with
     | Some df_row =>
         Downloader.name_from_row df_row
           (before_first "?" (os_path_basename path))
           ["id"; "name"; "title"; "product_id"]
     | None => before_first "?" (os_path_basename path)
     end).
Proof.
  intros Hpath Hdot. unfold Downloader.get_filename. rewrite Hpath.
  destruct (os_path_basename path) as [|c s] eqn:Hb; [done|].
  replace (String.eqb (String c s) "") with false by done.
  rewrite Hdot. cbn [orb negb]. rewrite Hdot. by cbn [negb].
Qed.

(** C9, as the code has it.  Directory source: the files are collected
    extension by extension in the order of the table of supported formats,
    for each extension the matches of the lowercase pattern then those of
    the uppercase one, each in the order the directory scan yields them; so
    the files of an extension come before those of every later extension,
    whatever their names, and no sorting by path takes place.  Table source:
    the URLs are the cells of the URL column that are not missing, in the
    order of the rows. *)
Theorem enumeration_order :
  (∀ ext input_folder recursive,
     Converter.collect_image_files ext input_folder recursive =
     concat (map (λ e,
                Converter.glob ext input_folder
                  ((if recursive then "**/*" else "*") +:+ "." +:+ e) ++
                Converter.glob ext input_folder
                  (upper ((if recursive then "**/*" else "*") +:+ "." +:+ e)))
              ["png"; "jpg"; "jpeg"; "jfif"; "jpe"; "bmp"; "webp"; "tiff";
               "tif"; "gif"; "ico"; "ppm"; "pgm"])) ∧
  (∀ ext input_folder i j e1 e2,
     Converter.get_supported_extensions !! i = Some e1 →
     Converter.get_supported_extensions !! j = Some e2 →
     (i < j)%nat →
     ∃ before between after,
       Converter.collect_image_files ext input_folder false =
       before ++
       (Converter.glob ext input_folder ("*." +:+ e1) ++
        Converter.glob ext input_folder (upper ("*." +:+ e1))) ++
       between ++
       (Converter.glob ext input_folder ("*." +:+ e2) ++
        Converter.glob ext input_folder (upper ("*." +:+ e2))) ++
       after) ∧
  (∀ self ext df urls,
     Downloader.load_excel_data self ext = Return (df, urls) →
     urls = map Downloader.cell_str
              (filter (λ c, Downloader.notna c = true)
                 (Downloader.df_column df (Downloader.url_column self))) ∧
     urls `sublist_of`
       map (λ row, Downloader.cell_str
                     (Downloader.row_get (Downloader.columns df) row
                        (Downloader.url_column self)))
         (Downloader.rows df)).
Proof.
  split; [|split].
  - intros ext input_folder recursive.
    unfold Converter.collect_image_files. by rewrite flat_map_concat_map.
  - intros ext input_folder i j e1 e2 Hi Hj Hlt.
    exact (flat_map_groups
             (λ e, Converter.glob ext input_folder ("*." +:+ e) ++
                   Converter.glob ext input_folder (upper ("*." +:+ e)))
             Converter.get_supported_extensions i j e1 e2 Hi Hj Hlt).
  - intros self ext df urls Hload.
    destruct (load_excel_data_column self ext df urls Hload) as [_ ->].
    split; [done|].
    unfold Downloader.column_strings, Downloader.df_column.
    rewrite <- (map_map (λ row, Downloader.row_get (Downloader.columns df) row
                                 (Downloader.url_column self))
                        Downloader.cell_str).
    apply fmap_sublist. apply sublist_filter.
Qed.

End Enumeration.

Section Targets.
Import Downloader.

(** C7, as the code has it.  No check of the targets comes before dispatch,
    and no configuration error exists: a sequence of work items in which two
    items have the same target is submitted whole, [download_all_images] has
    a run, and every run returns the records of all the tasks, each once.
    Equal targets do arise: the name [get_filename] gives to a URL whose
    path ends in a file name with a dot does not depend on the index of the
    item, so two rows with such a URL get one and the same file name. *)
Theorem equal_targets_are_dispatched self ext df urls w tasks :
  prepare_tasks self ext df urls = Return tasks →
  ¬ NoDup (map (task_target self) tasks) →
  0 < max_workers self →
  queue (submit_all tasks w) = tasks ∧
  (∃ run, download_all_images self ext df urls w run) ∧
  (∀ run, download_all_images self ext df urls w run →
     ∃ results report w',
       run = Returned results report w' ∧
       map outcome_task results ≡ₚ tasks) ∧
  (∀ url i j df_row path,
     urlparse_path ext url = Return path →
     char_in "." (os_path_basename path) = true →
     get_filename ext url i df_row = get_filename ext url j df_row).
Proof.
  intros Hprep _ Hw. split; [done|].
  destruct (runs_answer_every_task self ext df urls w tasks Hprep Hw)
    as [Hex Hall].
  split; [done|]. split.
  - intros run Hrun. destruct (Hall run Hrun) as (p & _ & _ & _ & Hperm & ->).
    unfold after_pool. eauto.
  - intros url i j df_row path Hpath Hdot.
    by rewrite !(get_filename_of_named_file ext url _ df_row path Hpath Hdot).
Qed.

End Targets.

(** ** Scenarios *)

(** The request of [x.jpg] raises an exception without message: the record
    is "failed" and its error is the empty string, so a failed record does
    not always carry a non-empty diagnostic. *)
Lemma failed_record_with_empty_error :
  ¬ (∀ self ext w url filename index e,
       Downloader.os_path_exists w (Downloader.filepath_of self filename)
         = false →
       Downloader.requests_get ext url (Downloader.timeout self) = Raise e →
       ∃ r w',
         Downloader.download_image self ext w url filename index
           = (Return r, w') ∧
         Downloader.status r = "failed" ∧
         ∃ msg, Downloader.error r = Some msg ∧ msg ≠ "").
Proof.
  intros H.
  destruct (H Sample.downloader Sample.web_out_of_memory Sample.empty_world
              "http://a.example/x.jpg" "x.jpg" 0%nat (Exception "")
              eq_refl eq_refl)
    as (r & w' & Hcall & _ & msg & Herr & Hne).
  vm_compute in Hcall. inversion Hcall; subst r. simpl in Herr.
  inversion Herr. congruence.
Qed.

(** The server answers with an image of no byte: the record is "success"
    although the file written has size zero, so success is not conditioned
    on a non-empty target. *)
Lemma empty_download_is_a_success :
  ¬ (∀ self ext w url filename index r w',
       Downloader.download_image self ext w url filename index
         = (Return r, w') →
       Downloader.status r = "success" →
       ∃ content,
         Downloader.files w' !! Downloader.filepath_of self filename
           = Some content ∧
         content ≠ []).
Proof.
  intros H.
  destruct (Downloader.download_image Sample.downloader
              Sample.web_empty_bodies Sample.empty_world
              "http://a.example/x.jpg" "x.jpg" 0) as [[r|e] w'] eqn:Hcall;
    [|by vm_compute in Hcall].
  pose proof (H _ _ _ _ _ _ _ _ Hcall) as Hr.
  vm_compute in Hcall. inversion Hcall; subst r w'. clear Hcall.
  destruct (Hr eq_refl) as (content & Hc & Hne).
  vm_compute in Hc. inversion Hc. congruence.
Qed.

(** [out/a.jpg] exists before the first run: the first run converts
    [b.png] and skips [a.jpg], the second skips both, two items where the
    first run converted one. *)
Lemma second_run_skips_more_than_first_converted :
  ¬ (∀ ext w input_folder output_folder output_format recursive c1 w1 c2 w2,
       Converter.bulk_convert ext w input_folder output_folder output_format
         recursive false = Return (Some c1, w1) →
       Converter.bulk_convert ext w1 input_folder output_folder output_format
         recursive false = Return (Some c2, w2) →
       Converter.skipped_count c2 = Converter.converted_count c1 ∧
       Converter.files w2 = Converter.files w1).
Proof.
  intros H.
  destruct (Converter.bulk_convert Sample.studio Sample.disk_with_a
              "in" "out" "jpg" false false) as [[[c1|] w1]|e] eqn:Hrun1;
    try by vm_compute in Hrun1.
  destruct (Converter.bulk_convert Sample.studio w1
              "in" "out" "jpg" false false) as [[[c2|] w2]|e] eqn:Hrun2.
  - destruct (H _ _ _ _ _ _ _ _ _ _ Hrun1 Hrun2) as [Hcount _].
    vm_compute in Hrun1. inversion Hrun1; subst c1 w1. clear Hrun1.
    vm_compute in Hrun2. inversion Hrun2; subst c2. clear Hrun2.
    simpl in Hcount. discriminate Hcount.
  - vm_compute in Hrun1. inversion Hrun1; subst c1 w1.
    by vm_compute in Hrun2.
  - vm_compute in Hrun1. inversion Hrun1; subst c1 w1.
    by vm_compute in Hrun2.
Qed.

(** A run whose only request raises writes [failed_downloads.csv]; a
    downloader given that file as its source raises, so the retry list is
    not read back. *)
Lemma retry_list_is_not_an_input_source :
  ¬ (∀ self ext df urls w results report w',
       Downloader.download_all_images self ext df urls w
         (Downloader.Returned results report w') →
       (0 < Downloader.failed report)%nat →
       ∃ df' urls',
         Downloader.load_excel_data
           {| Downloader.excel_path := "failed_downloads.csv";
              Downloader.url_column := "url";
              Downloader.output_dir := Downloader.output_dir self;
              Downloader.max_workers := Downloader.max_workers self;
              Downloader.timeout := Downloader.timeout self |} ext
           = Return (df', urls') ∧
         urls' = map Downloader.url
                   (filter (λ r, Downloader.status r = "failed") results)).
Proof.
  intros H.
  set (tasks := [("http://a.example/x.jpg", "x.jpg", 0%nat)] : list Downloader.Task).
  destruct (Downloader.run_in_order Sample.downloader Sample.web_out_of_memory
              tasks (Downloader.submit_all tasks Sample.empty_world))
    as [p|e] eqn:Hrun; [|by vm_compute in Hrun].
  pose proof (run_in_order_sound Sample.downloader Sample.web_out_of_memory
                None ["http://a.example/x.jpg"] Sample.empty_world tasks p
                eq_refl eq_refl Hrun) as Hsound.
  vm_compute in Hrun. inversion Hrun; subst p. clear Hrun.
  destruct (H _ _ _ _ _ _ _ _ Hsound) as (df' & urls' & Hload & _).
  { vm_compute. lia. }
  vm_compute in Hload. discriminate Hload.
Qed.

(** The two links of the sheet name [x.jpg] on two hosts: both tasks have
    the target [downloaded_images/x.jpg], and the run returns its records
    instead of raising. *)
Lemma equal_targets_raise_nothing :
  ¬ (∀ self ext df urls w tasks run,
       Downloader.prepare_tasks self ext df urls = Return tasks →
       ¬ NoDup (map (Downloader.task_target self) tasks) →
       Downloader.download_all_images self ext df urls w run →
       ∃ e, run = Downloader.Raised e).
Proof.
  intros H.
  set (tasks := [("http://a.example/x.jpg", "x.jpg", 0%nat);
                 ("http://b.example/x.jpg", "x.jpg", 1%nat)]
                : list Downloader.Task).
  destruct (Downloader.run_in_order Sample.downloader Sample.web_images
              tasks (Downloader.submit_all tasks Sample.empty_world))
    as [p|e] eqn:Hrun; [|by vm_compute in Hrun].
  pose proof (run_in_order_sound Sample.downloader Sample.web_images
                (Some Sample.links) Sample.links_urls Sample.empty_world
                tasks p eq_refl eq_refl Hrun) as Hsound.
  assert (¬ NoDup (map (Downloader.task_target Sample.downloader) tasks))
    as Hdup.
  { intros Hnd. apply NoDup_cons in Hnd as [Hnin _]. apply Hnin. left. }
  destruct (H Sample.downloader Sample.web_images (Some Sample.links)
              Sample.links_urls Sample.empty_world tasks _ eq_refl Hdup
              Hsound) as [e He].
  discriminate He.
Qed.

(** The transfer of [x.jpg] breaks after its first chunk: the record is
    "failed" and the two bytes received stay at the target. *)
Lemma broken_transfer_leaves_partial_file :
  ¬ (∀ self ext w url filename index r w',
       Downloader.download_image self ext w url filename index
         = (Return r, w') →
       Downloader.status r ≠ "success" →
       Downloader.files w' = Downloader.files w).
Proof.
  intros H.
  destruct (Downloader.download_image Sample.downloader
              Sample.web_broken_transfers Sample.empty_world
              "http://a.example/x.jpg" "x.jpg" 0) as [[r|e] w'] eqn:Hcall;
    [|by vm_compute in Hcall].
  pose proof (H _ _ _ _ _ _ _ _ Hcall) as Hr.
  vm_compute in Hcall. inversion Hcall; subst r w'. clear Hcall.
  assert (Downloader.status
            (Downloader.record 0 "http://a.example/x.jpg" "x.jpg" "failed"
               (Some "Connection broken")) ≠ "success") as Hs by done.
  specialize (Hr Hs).
  apply (f_equal (λ m : gmap string bytes, m !! "downloaded_images/x.jpg"))
    in Hr.
  vm_compute in Hr. discriminate Hr.
Qed.

(** A folder with [a.jpg] and [b.png]: [b.png] is collected first, the
    extension [png] coming first in the table, so the files are not in the
    order of their paths. *)
Lemma image_files_not_sorted :
  ¬ (∀ ext input_folder recursive,
       Sorted (λ a b, String.leb a b = true)
         (Converter.collect_image_files ext input_folder recursive)).
Proof.
  intros H. specialize (H Sample.studio "in" false).
  assert (Converter.collect_image_files Sample.studio "in" false
          = ["in/b.png"; "in/a.jpg"]) as Heq by (vm_compute; reflexivity).
  rewrite Heq in H. inversion H as [|a l _ Hhd]; subst.
  inversion Hhd as [|b l' Hle]; subst. vm_compute in Hle. discriminate Hle.
Qed.

(** ** The theorems at concrete inputs *)

(** The sheet [links.xlsx] is a valid source with two links, and five
    workers: every run over it returns two records. *)
Lemma one_record_per_work_item_witness :
  Downloader.load_excel_data Sample.downloader Sample.web_images
    = Return (Sample.links, Sample.links_urls) ∧
  0 < Downloader.max_workers Sample.downloader ∧
  (∃ run, Downloader.download_all_images Sample.downloader Sample.web_images
            (Some Sample.links) Sample.links_urls Sample.empty_world run) ∧
  (∀ run, Downloader.download_all_images Sample.downloader Sample.web_images
            (Some Sample.links) Sample.links_urls Sample.empty_world run →
     ∃ tasks results report w',
       Downloader.prepare_tasks Sample.downloader Sample.web_images
         (Some Sample.links) Sample.links_urls = Return tasks ∧
       run = Downloader.Returned results report w' ∧
       map Downloader.outcome_task results ≡ₚ tasks ∧
       length results = length Sample.links_urls ∧
       Downloader.total report = length Sample.links_urls).
Proof.
  split; [reflexivity|]. split; [reflexivity|].
  apply (one_record_per_work_item Sample.downloader Sample.web_images
           Sample.links Sample.links_urls Sample.empty_world);
    reflexivity.
Defined.

(** [downloaded_images/x.jpg] and [out/a.jpg] exist: both items are
    skipped. *)
Lemma existing_target_is_skipped_witness :
  Downloader.download_image Sample.downloader Sample.web_images
    Sample.world_with_x "http://a.example/x.jpg" "x.jpg" 0
  = (Return (Downloader.record 0 "http://a.example/x.jpg" "x.jpg" "skipped"
               None), Sample.world_with_x) ∧
  ∃ c' cw',
    Converter.bulk_convert_item Sample.studio "out" "jpg" false
      (Converter.zero_counts, Sample.disk_with_a) "in/a.jpg" = Return (c', cw') ∧
    Converter.skipped_count c' = 1%nat ∧
    Converter.converted_count c' = 0%nat ∧
    Converter.failed_count c' = 0%nat ∧
    Converter.files cw' = Converter.files Sample.disk_with_a ∧
    Converter.calls cw' = Converter.calls Sample.disk_with_a.
Proof.
  split.
  - apply (proj1 (existing_target_is_skipped Sample.downloader
                    Sample.web_images)).
    vm_compute. reflexivity.
  - apply (proj2 (existing_target_is_skipped Sample.downloader
                    Sample.web_images) Sample.studio "out" "jpg" Converter.zero_counts
             Sample.disk_with_a "in/a.jpg").
    vm_compute. reflexivity.
Defined.

(** The request that raises without message gives the failed record with
    the empty error. *)
Lemma exceptions_become_failed_records_witness :
  ∃ w', Downloader.download_image Sample.downloader Sample.web_out_of_memory
          Sample.empty_world "http://a.example/x.jpg" "x.jpg" 0
        = (Return (Downloader.record 0 "http://a.example/x.jpg" "x.jpg"
                     "failed" (Some "")), w').
Proof.
  apply (proj1 exceptions_become_failed_records Sample.downloader
           Sample.web_out_of_memory Sample.empty_world
           "http://a.example/x.jpg" "x.jpg" 0%nat (Exception ""));
    reflexivity.
Defined.

(** The image of no byte is recorded as a success, the target being an
    empty file. *)
Lemma success_is_recorded_unchecked_witness :
  ∃ w', Downloader.download_image Sample.downloader Sample.web_empty_bodies
          Sample.empty_world "http://a.example/x.jpg" "x.jpg" 0
        = (Return (Downloader.record 0 "http://a.example/x.jpg" "x.jpg"
                     "success" None), w') ∧
        Downloader.files w'
        = <["downloaded_images/x.jpg" := []]>
            (Downloader.files Sample.empty_world).
Proof.
  apply (proj1 (success_is_recorded_unchecked Sample.downloader
                  Sample.web_empty_bodies) Sample.empty_world
           "http://a.example/x.jpg" "x.jpg" 0%nat (Sample.image [] None));
    reflexivity.
Defined.

(** On an empty output folder the first run converts the two files and the
    second skips the two. *)
Lemma second_run_skips_what_exists_witness :
  ∃ c1 w1 c2 w2,
    Converter.bulk_convert Sample.studio Sample.empty_disk "in" "out" "jpg"
      false false = Return (Some c1, w1) ∧
    Converter.bulk_convert Sample.studio w1 "in" "out" "jpg" false false
      = Return (Some c2, w2) ∧
    Converter.converted_count c1 = 2%nat ∧
    Converter.failed_count c1 = 0%nat ∧
    Converter.skipped_count c2 =
      (Converter.converted_count c1 + Converter.skipped_count c1)%nat ∧
    Converter.files w2 = Converter.files w1 ∧
    Converter.calls w2 = Converter.calls w1.
Proof.
  destruct (Converter.bulk_convert Sample.studio Sample.empty_disk
              "in" "out" "jpg" false false) as [[[c1|] w1]|e] eqn:Hrun1;
    try (exfalso; vm_compute in Hrun1; discriminate Hrun1).
  destruct (Converter.bulk_convert Sample.studio w1
              "in" "out" "jpg" false false) as [[[c2|] w2]|e] eqn:Hrun2.
  - destruct (proj2 second_run_skips_what_exists Sample.studio Sample.studio
                Sample.empty_disk "in" "out" "jpg" false c1 w1 c2 w2
                eq_refl Hrun1 Hrun2) as [_ Hnone].
    assert (Converter.converted_count c1 = 2%nat ∧
            Converter.failed_count c1 = 0%nat) as [Hc Hf].
    { vm_compute in Hrun1. inversion Hrun1. split; reflexivity. }
    destruct (Hnone Hf) as (Hs & _ & _ & Hfiles & Hcalls).
    exists c1, w1, c2, w2. repeat split; assumption.
  - exfalso. vm_compute in Hrun1. inversion Hrun1; subst c1 w1.
    vm_compute in Hrun2. discriminate Hrun2.
  - exfalso. vm_compute in Hrun1. inversion Hrun1; subst c1 w1.
    vm_compute in Hrun2. discriminate Hrun2.
Defined.

(** The run whose only request raises writes its record to
    [failed_downloads.csv]; a source of that name is refused by the
    loader. *)
Lemma retry_list_is_written_as_csv_witness :
  (∃ results report w',
     Downloader.download_all_images Sample.downloader Sample.web_out_of_memory
       None ["http://a.example/x.jpg"] Sample.empty_world
       (Downloader.Returned results report w') ∧
     Downloader.failed report = 1%nat ∧
     Downloader.csv_files w' !! "failed_downloads.csv" =
       Some (Downloader.DataFrame_of_records
               (filter (λ r, Downloader.status r = "failed") results)) ∧
     Downloader.column_strings
       (Downloader.DataFrame_of_records
          (filter (λ r, Downloader.status r = "failed") results)) "url"
     = ["http://a.example/x.jpg"]) ∧
  Downloader.load_excel_data
    {| Downloader.excel_path := "failed_downloads.csv";
       Downloader.url_column := "url";
       Downloader.output_dir := "downloaded_images";
       Downloader.max_workers := 5;
       Downloader.timeout := 30 |} Sample.web_images
  = Raise (Exception "Unsupported file format. Use .xlsx or .xls").
Proof.
  split.
  - set (tasks := [("http://a.example/x.jpg", "x.jpg", 0%nat)]
                  : list Downloader.Task).
    destruct (Downloader.run_in_order Sample.downloader
                Sample.web_out_of_memory tasks
                (Downloader.submit_all tasks Sample.empty_world))
      as [p|e] eqn:Hrun;
      [|exfalso; vm_compute in Hrun; discriminate Hrun].
    pose proof (run_in_order_sound Sample.downloader Sample.web_out_of_memory
                  None ["http://a.example/x.jpg"] Sample.empty_world tasks p
                  eq_refl eq_refl Hrun) as Hsound.
    destruct (proj1 retry_list_is_written_as_csv _ _ _ _ _ _ _ _ Hsound)
      as [Hsaved _].
    assert (Downloader.results p =
            [Downloader.record 0 "http://a.example/x.jpg" "x.jpg" "failed"
               (Some "")]) as Hres.
    { vm_compute in Hrun. inversion Hrun. reflexivity. }
    simpl in Hsaved. rewrite Hres in Hsaved.
    destruct Hsaved as (Hcsv & _ & _ & Hurls); [vm_compute; lia|].
    eexists _, _, _. split; [exact Hsound|]. simpl. rewrite Hres.
    split; [reflexivity|]. split; [exact Hcsv|exact Hurls].
  - apply (proj1 (proj2 retry_list_is_written_as_csv)); reflexivity.
Defined.

(** The two links of the sheet have the same target, and are dispatched. *)
Lemma equal_targets_are_dispatched_witness :
  ¬ NoDup (map (Downloader.task_target Sample.downloader)
             [("http://a.example/x.jpg", "x.jpg", 0%nat);
              ("http://b.example/x.jpg", "x.jpg", 1%nat)]) ∧
  ∃ run, Downloader.download_all_images Sample.downloader Sample.web_images
           (Some Sample.links) Sample.links_urls Sample.empty_world run.
Proof.
  assert (¬ NoDup (map (Downloader.task_target Sample.downloader)
                     [("http://a.example/x.jpg", "x.jpg", 0%nat);
                      ("http://b.example/x.jpg", "x.jpg", 1%nat)])) as Hdup.
  { intros Hnd. apply NoDup_cons in Hnd as [Hnin _]. apply Hnin. left. }
  split; [exact Hdup|].
  apply (equal_targets_are_dispatched Sample.downloader Sample.web_images
           (Some Sample.links) Sample.links_urls Sample.empty_world
           [("http://a.example/x.jpg", "x.jpg", 0%nat);
            ("http://b.example/x.jpg", "x.jpg", 1%nat)]
           eq_refl Hdup eq_refl).
Defined.

(** The links of the sheet, in the order of its rows, the empty cell
    dropped. *)
Lemma enumeration_order_witness :
  Sample.links_urls `sublist_of`
    ["http://a.example/x.jpg"; "nan"; "http://b.example/x.jpg"].
Proof.
  apply (proj2 (proj2 enumeration_order) Sample.downloader Sample.web_images
           Sample.links Sample.links_urls eq_refl).
Defined.

(** * Further properties of the two scripts *)

(** ** The format tables of the converter *)

Section Formats.
Import Converter.

Lemma lower_char_idem c : lower_char (lower_char c) = lower_char c.
Proof. destruct c as [[] [] [] [] [] [] [] []]; reflexivity. Qed.

Lemma lower_idem s : lower (lower s) = lower s.
Proof.
  induction s as [|c s IH]; [done|]. unfold lower in *. simpl.
  by rewrite lower_char_idem, IH.
Qed.

Lemma supported_key k :
  dict_mem k supported_formats = true → k ∈ get_supported_extensions.
Proof.
  unfold dict_mem. rewrite existsb_exists. intros ([k' v] & Hin & Heq).
  apply String.eqb_eq in Heq. simpl in Heq. subst k'.
  apply list_elem_of_In. apply (in_map fst) in Hin. exact Hin.
Qed.

Ltac each_supported H :=
  apply supported_key in H; unfold get_supported_extensions in H;
  simpl in H; repeat (apply elem_of_cons in H as [H|H]);
  [..|by apply elem_of_nil in H].

(** X1. The name handed to the imaging library is the one the table of
    supported formats lists, for every format [bulk_convert] accepts and
    however it is capitalised: the mapping and its upper-case fallback
    (used for ppm and pgm) agree with the table. *)
Theorem pillow_format_of_supported format_name :
  dict_mem (lower format_name) supported_formats = true →
  dict_get (lower format_name) supported_formats
  = Some (get_pillow_format format_name).
Proof.
  unfold get_pillow_format. generalize (lower format_name). intros k Hk.
  each_supported Hk; subst k; reflexivity.
Qed.

(** X2. The extension given to the output files of an accepted format is itself
    an accepted format, and it names the same encoder: a file written for
    "jpeg" is called [.jpg] and both mean JPEG, one written for "tif" is
    called [.tiff]. *)
Theorem output_extension_names_same_format format_name :
  dict_mem (lower format_name) supported_formats = true →
  dict_mem (lower (get_output_extension format_name)) supported_formats
    = true ∧
  get_pillow_format (get_output_extension format_name)
    = get_pillow_format format_name.
Proof.
  unfold get_pillow_format, get_output_extension.
  generalize (lower format_name). intros k Hk.
  each_supported Hk; subst k; split; reflexivity.
Qed.

(** X3. Taking the output extension twice changes nothing, whatever the
    format name. *)
Theorem output_extension_idempotent format_name :
  get_output_extension (get_output_extension format_name)
  = get_output_extension format_name.
Proof.
  unfold get_output_extension at 2 3.
  repeat case_bool_decide; try reflexivity.
  unfold get_output_extension. rewrite lower_idem.
  rewrite !bool_decide_false by done. done.
Qed.

End Formats.

Lemma pillow_format_of_supported_witness :
  Py.dict_get (lower "JPG") Converter.supported_formats
  = Some (Converter.get_pillow_format "JPG").
Proof. apply pillow_format_of_supported. reflexivity. Defined.

Lemma output_extension_names_same_format_witness :
  Py.dict_mem (lower (Converter.get_output_extension "Jpeg"))
    Converter.supported_formats = true ∧
  Converter.get_pillow_format (Converter.get_output_extension "Jpeg")
  = Converter.get_pillow_format "Jpeg".
Proof. apply output_extension_names_same_format. reflexivity. Defined.

(** ** The runs of [bulk_convert] *)

Lemma size_difference_mono (a : string) (O D D1 : gset string) :
  D ⊆ D1 → (size (O ∖ D1) ≤ size (({[a]} ∪ O) ∖ D))%nat.
Proof.
  intros HD. apply subseteq_size. intros b.
  rewrite !elem_of_difference, elem_of_union. intros [Hb Hn]. split; [by right|].
  intros Hd. apply Hn. by apply HD.
Qed.

Lemma size_difference_new (a : string) (O D D1 : gset string) :
  D ⊆ D1 → a ∉ D → a ∈ D1 →
  (size (O ∖ D1) + 1 ≤ size (({[a]} ∪ O) ∖ D))%nat.
Proof.
  intros HD Hnew Hold.
  assert (({[a]} ∪ O) ∖ D = {[a]} ∪ ((O ∖ D) ∖ {[a]})) as ->.
  { apply set_eq. intros b.
    rewrite !elem_of_difference, !elem_of_union, !elem_of_difference,
      !elem_of_singleton.
    destruct (decide (b = a)) as [->|Hne]; intuition (auto; congruence). }
  pose proof (size_union ({[a]} : gset string) ((O ∖ D) ∖ {[a]})) as Hu.
  rewrite Hu.
  2:{ intros b. rewrite elem_of_singleton, !elem_of_difference, elem_of_singleton. intuition. }
  rewrite size_singleton.
  assert (size (O ∖ D1) ≤ size ((O ∖ D) ∖ {[a]}))%nat.
  { apply subseteq_size. intros b.
    rewrite !elem_of_difference, elem_of_singleton. intros [Hb Hn].
    split; [split; [done|]|].
    - intros Hd. apply Hn. by apply HD.
    - intros ->. done. }
  lia.
Qed.

Section ConverterRuns.
Import Converter.
Context (ext : Externals) (output_folder output_format : string).

Local Abbreviation out := (output_path_of output_folder output_format).
Local Abbreviation item := (bulk_convert_item ext output_folder output_format).
Local Abbreviation loop := (bulk_convert_loop ext output_folder output_format).
Local Abbreviation pillow := (get_pillow_format output_format).

(** One turn of the loop either skips, or hands the input to the imaging
    library once; a conversion without overwrite finds its output absent. *)
Lemma bulk_convert_item_calls overwrite c w x c' w' :
  item overwrite (c, w) x = Return (c', w') →
  (skipped_count c' = skipped_count c + 1 ∧
   converted_count c' + failed_count c'
     = converted_count c + failed_count c ∧
   overwrite = false ∧ calls w' = calls w)%nat ∨
  (skipped_count c' = skipped_count c ∧
   converted_count c' + failed_count c'
     = converted_count c + failed_count c + 1 ∧
   calls w' = calls w ++ [(x, pillow)] ∧
   (overwrite = false → files w !! out x = None))%nat.
Proof.
  unfold bulk_convert_item.
  destruct (path_exists w (out x) && negb overwrite) eqn:Hskip.
  - intros Heq. inversion Heq; subst. left. simpl.
    apply andb_true_iff in Hskip as [_ Hov]. apply negb_true_iff in Hov.
    repeat split; try done; lia.
  - assert (overwrite = false → files w !! out x = None) as Habs.
    { intros ->. rewrite andb_true_r in Hskip.
      apply bool_decide_eq_false in Hskip.
      by apply eq_None_not_Some. }
    destruct (pil ext (files w) x pillow) as [content|e residue] eqn:Hpil.
    + destruct (convert_image_saved ext w x (out x) output_format content Hpil)
        as (w1 & -> & _ & Hcalls).
      intros Heq. inversion Heq; subst. right. simpl.
      repeat split; try done; lia.
    + destruct (convert_image_failed ext w x (out x) output_format e residue
                  Hpil) as (w1 & -> & _ & Hcalls & _).
      intros Heq. inversion Heq; subst. right. simpl.
      repeat split; try done; lia.
Qed.

(** X4. The imaging library is called once for each file that is not skipped,
    in the order of the files, always with the Pillow name of the output
    format; with overwrite requested no file is skipped, so it is called
    for every file. *)
Theorem codec_called_once_per_unskipped_file overwrite image_files :
  ∀ c w c' w',
    bulk_convert_loop ext output_folder output_format overwrite image_files
      (c, w) = Return (c', w') →
    ∃ handed,
      handed `sublist_of` image_files ∧
      calls w' =
        calls w ++ map (λ x, (x, get_pillow_format output_format)) handed ∧
      (length handed + converted_count c + failed_count c
       = converted_count c' + failed_count c')%nat ∧
      (length image_files + skipped_count c
       = length handed + skipped_count c')%nat ∧
      (overwrite = true → handed = image_files).
Proof.
  induction image_files as [|x rest IH]; intros c w c' w' Hloop.
  - inversion Hloop; subst. exists []. simpl. rewrite app_nil_r.
    repeat split; try done; lia.
  - rewrite bulk_convert_loop_cons in Hloop.
    destruct (item overwrite (c, w) x) as [[c1 w1]|e] eqn:Hitem; [|done].
    simpl in Hloop. destruct (IH _ _ _ _ Hloop)
      as (handed & Hsub & Hcalls & Hn & Hs & Hov).
    destruct (bulk_convert_item_calls _ _ _ _ _ _ Hitem)
      as [(?&?&?&Hc1)|(?&?&Hc1&_)].
    + exists handed. split; [by apply sublist_cons|].
      split; [by rewrite Hcalls, Hc1|]. simpl.
      repeat split; try lia. intros ->. done.
    + exists (x :: handed). split; [by apply sublist_skip|].
      split; [rewrite Hcalls, Hc1; by rewrite <- app_assoc|]. simpl.
      repeat split; try lia. intros Ht. by rewrite (Hov Ht).
Qed.

(** X5. Without overwrite a run never writes a converted file over an existing
    path, so it converts at most as many files as there are distinct output
    paths absent at its start: of several inputs with the same output path
    one at most is converted. *)
Theorem one_conversion_per_output_path image_files :
  ∀ c w c' w',
    bulk_convert_loop ext output_folder output_format false image_files
      (c, w) = Return (c', w') →
    (converted_count c' ≤ converted_count c +
       size (list_to_set
               (map (output_path_of output_folder output_format) image_files)
             ∖ dom (files w) : gset string))%nat.
Proof.
  induction image_files as [|x rest IH]; intros c w c' w' Hloop.
  - inversion Hloop; subst. lia.
  - rewrite bulk_convert_loop_cons in Hloop.
    destruct (bulk_convert_item_returns ext output_folder output_format
                false c w x) as (c1 & w1 & Hitem & Hm & Hcase).
    rewrite Hitem in Hloop. simpl in Hloop.
    specialize (IH _ _ _ _ Hloop).
    assert (dom (files w) ⊆ dom (files w1)) as Hdom.
    { intros path. rewrite !elem_of_dom. apply Hm. }
    pose proof (size_difference_mono (out x)
                  (list_to_set (map out rest)) _ _ Hdom) as Hmono.
    destruct (bulk_convert_item_calls _ _ _ _ _ _ Hitem)
      as [(?&?&_&_)|(?&?&_&Habs)].
    + (* skipped *)
      assert (converted_count c1 = converted_count c) as Hc.
      { destruct Hcase as [(?&?&?&_)|[(?&?&?&_)|(?&?&?&_)]]; lia. }
      simpl. lia.
    + destruct Hcase as [(Hc&_&_&Hp)|[(?&?&?&_)|(Hc&_&_&_)]]; [|lia|].
      * (* converted: the output was absent and is there now *)
        specialize (Habs eq_refl).
        assert (out x ∉ dom (files w)) as Hnew
          by by apply not_elem_of_dom.
        assert (out x ∈ dom (files w1)) as Hold by by apply elem_of_dom.
        pose proof (size_difference_new (out x)
                      (list_to_set (map out rest)) _ _ Hdom Hnew Hold).
        simpl. lia.
      * simpl. lia.
Qed.

End ConverterRuns.

Section ConverterOutcomes.
Import Converter.

Lemma char_in_app c a b : char_in c (a +:+ b) = char_in c a || char_in c b.
Proof.
  induction a as [|d a IH]; [done|]. simpl. rewrite IH. by rewrite orb_assoc.
Qed.

Lemma after_last_absent sep s : char_in sep s = false → after_last sep s = s.
Proof.
  destruct s as [|c s]; [done|]. simpl. intros H.
  apply orb_false_iff in H as [Hc Hs]. rewrite Hs.
  rewrite Ascii.eqb_sym. by rewrite Hc.
Qed.

Lemma after_last_app sep a b :
  after_last sep (a +:+ String sep b) = after_last sep b.
Proof.
  induction a as [|c a IH]; simpl.
  - rewrite Ascii.eqb_refl.
    destruct (char_in sep b) eqn:Hb; [done|]. by rewrite after_last_absent.
  - rewrite char_in_app. simpl. rewrite Ascii.eqb_refl.
    rewrite orb_true_r. simpl. exact IH.
Qed.

(** X6. The output path of a file keeps nothing of the folder the file is in:
    a recursive run puts the converted files of all the sub-folders side by
    side in the output folder, under the stem of their names. *)
Theorem output_path_ignores_folder output_folder output_format folder name :
  output_path_of output_folder output_format (folder +:+ "/" +:+ name)
  = output_path_of output_folder output_format name.
Proof.
  unfold output_path_of, path_stem, path_name.
  change (folder +:+ "/" +:+ name) with (folder +:+ String "/" name).
  by rewrite after_last_app.
Qed.


End ConverterOutcomes.


(** ** The names [get_filename] gives *)

Section FileNames.
Import Downloader.

Lemma string_length_app a b :
  String.length (a +:+ b) = (String.length a + String.length b)%nat.
Proof. induction a as [|c a IH]; [done|]. simpl. by rewrite IH. Qed.

Lemma string_app_inj_r a b t : a +:+ t = b +:+ t → a = b.
Proof.
  revert b. induction a as [|c a IH]; intros b Heq.
  - destruct b as [|d b]; [done|].
    apply (f_equal String.length) in Heq.
    rewrite !string_length_app in Heq. simpl in Heq. lia.
  - destruct b as [|d b].
    + apply (f_equal String.length) in Heq.
      rewrite !string_length_app in Heq. simpl in Heq. lia.
    + simpl in Heq. injection Heq as -> Heq. f_equal. by apply IH.
Qed.

Lemma char_in_filter_chars keep c s :
  char_in c (filter_chars keep s) = true → keep c = true ∧ char_in c s = true.
Proof.
  induction s as [|d s IH]; [done|]. simpl.
  destruct (keep d) eqn:Hd; simpl.
  - destruct (Ascii.eqb c d) eqn:Hcd; simpl.
    + apply Ascii.eqb_eq in Hcd. subst d. done.
    + intros H. destruct (IH H). done.
  - intros H. destruct (IH H) as [? ->]. by rewrite orb_true_r.
Qed.

Lemma filter_chars_all keep s :
  (∀ c, char_in c s = true → keep c = true) → filter_chars keep s = s.
Proof.
  induction s as [|d s IH]; [done|]. intros Hall. simpl.
  rewrite (Hall d) by (simpl; by rewrite Ascii.eqb_refl).
  f_equal. apply IH. intros c Hc. apply Hall. simpl. by rewrite Hc, orb_true_r.
Qed.

Lemma before_first_absent sep s :
  char_in sep s = false → before_first sep s = s.
Proof.
  induction s as [|c s IH]; [done|]. simpl. intros H.
  apply orb_false_iff in H as [Hc Hs]. rewrite Ascii.eqb_sym, Hc.
  by rewrite IH.
Qed.

Lemma pretty_N_char_digit x : char_in (pretty_N_char x) digits = true.
Proof. unfold pretty_N_char. by repeat case_match. Qed.

Lemma pretty_N_go_digits x : ∀ s c,
  (∀ d, char_in d s = true → char_in d digits = true) →
  char_in c (pretty_N_go x s) = true → char_in c digits = true.
Proof.
  induction (N.lt_wf_0 x) as [x _ IH]. intros s c Hs.
  assert (x = 0 ∨ 0 < x)%N as [->|Hpos] by lia.
  - rewrite pretty_N_go_0. apply Hs.
  - rewrite pretty_N_go_step by done. apply IH.
    { by apply N.div_lt. }
    intros d. simpl. intros Hd. apply orb_true_iff in Hd as [Hd|Hd].
    + apply Ascii.eqb_eq in Hd. subst d. apply pretty_N_char_digit.
    + by apply Hs.
Qed.

(** [str(i)] for a natural number is made of digits. *)
Lemma pretty_nat_digits (i : nat) c :
  char_in c (pretty i) = true → char_in c digits = true.
Proof.
  unfold pretty, pretty_nat, pretty, pretty_N. case_decide.
  - simpl. intros Hc. apply orb_true_iff in Hc as [Hc|Hc]; [|done].
    apply Ascii.eqb_eq in Hc. by subst c.
  - apply pretty_N_go_digits. done.
Qed.

Lemma digit_cases c :
  char_in c digits = true →
  c ∈ ["0"; "1"; "2"; "3"; "4"; "5"; "6"; "7"; "8"; "9"]%char.
Proof.
  unfold digits. simpl. rewrite !orb_true_iff, !Ascii.eqb_eq.
  intros H. repeat (destruct H as [->|H]; [set_solver|]). done.
Qed.

(** The name of the fallback: safe characters, no dot, no question mark. *)
Lemma image_name_chars (i : nat) c :
  char_in c ("image_" +:+ pretty i) = true →
  char_in c safe_chars = true ∧ c ≠ "."%char ∧ c ≠ "?"%char.
Proof.
  rewrite char_in_app. intros H. apply orb_true_iff in H as [H|H].
  - simpl in H. rewrite !orb_true_iff, !Ascii.eqb_eq in H.
    repeat (destruct H as [->|H]; [done|]). done.
  - apply pretty_nat_digits, digit_cases in H.
    repeat (apply elem_of_cons in H as [->|H]; [done|]).
    by apply elem_of_nil in H.
Qed.

Lemma char_in_false c s : (∀ d, char_in d s = true → d ≠ c) →
  char_in c s = false.
Proof.
  intros H. destruct (char_in c s) eqn:Hc; [|done]. by destruct (H c Hc).
Qed.

Lemma image_jpg_chars (i : nat) c :
  char_in c ("image_" +:+ pretty i +:+ ".jpg") = true →
  char_in c safe_chars = true ∧ c ≠ "?"%char ∧ c ≠ "/"%char.
Proof.
  change ("image_" +:+ pretty i +:+ ".jpg")
    with ("image_" +:+ (pretty i +:+ ".jpg")).
  rewrite !char_in_app. intros H.
  apply orb_true_iff in H as [H|H]; [|apply orb_true_iff in H as [H|H]].
  - simpl in H. rewrite !orb_true_iff, !Ascii.eqb_eq in H.
    repeat (destruct H as [->|H]; [done|]). done.
  - apply pretty_nat_digits, digit_cases in H.
    repeat (apply elem_of_cons in H as [->|H]; [done|]).
    by apply elem_of_nil in H.
  - simpl in H. rewrite !orb_true_iff, !Ascii.eqb_eq in H.
    repeat (destruct H as [->|H]; [done|]). done.
Qed.

(** The name given when the URL names no file and no column of the row
    names the item. *)
Lemma get_filename_of_nameless ext url i path :
  urlparse_path ext url = Return path →
  char_in "." (os_path_basename path) = false →
  get_filename ext url i None = "image_" +:+ pretty i +:+ ".jpg".
Proof.
  intros Hpath Hdot. unfold get_filename. rewrite Hpath, Hdot.
  rewrite orb_true_r. cbn [negb].
  assert (char_in "." ("image_" +:+ pretty i) = false) as Hnodot.
  { apply char_in_false. intros d Hd.
    by apply image_name_chars in Hd as (_ & Hd & _). }
  rewrite Hnodot. cbn [negb].
  change (("image_" +:+ pretty i) +:+ ".jpg")
    with ("image_" +:+ pretty i +:+ ".jpg").
  rewrite before_first_absent.
  2:{ apply char_in_false. intros d Hd.
      by apply image_jpg_chars in Hd as (_ & Hd & _). }
  apply filter_chars_all. intros c Hc.
  by apply image_jpg_chars in Hc as (Hc & _).
Qed.

End FileNames.

Section FileNameProperties.
Import Downloader.

Lemma no_leading_separator s :
  char_in "/" s = false → String.prefix "/" s = false.
Proof.
  destruct s as [|c s]; [done|]. intros H. cbn [char_in] in H.
  apply orb_false_iff in H as [Hc _]. apply Ascii.eqb_neq in Hc.
  cbn [String.prefix]. by destruct (Ascii.ascii_dec "/" c).
Qed.

(** X10. Whatever the URL, the index and the row, the name [get_filename]
    returns is made of the safe characters only (letters, digits, hyphen,
    underscore, dot), also when [urlparse] raises.  It holds no path
    separator, so the path [download_image] joins from it is the output
    directory followed by the name, never a path elsewhere. *)
Theorem get_filename_is_safe self ext url i df_row :
  (∀ c, char_in c (get_filename ext url i df_row) = true →
        char_in c safe_chars = true) ∧
  char_in "/" (get_filename ext url i df_row) = false ∧
  (filepath_of self (get_filename ext url i df_row)
     = output_dir self +:+ get_filename ext url i df_row ∨
   filepath_of self (get_filename ext url i df_row)
     = output_dir self +:+ "/" +:+ get_filename ext url i df_row).
Proof.
  assert (∀ c, char_in c (get_filename ext url i df_row) = true →
               char_in c safe_chars = true) as Hsafe.
  { intros c. unfold get_filename.
    destruct (urlparse_path ext url) as [path|e].
    - intros Hc. by apply char_in_filter_chars in Hc as [Hc _].
    - intros Hc. by apply image_jpg_chars in Hc as [Hc _]. }
  assert (char_in "/" (get_filename ext url i df_row) = false) as Hsep.
  { apply char_in_false. intros d Hd ->. by apply Hsafe in Hd. }
  split; [done|]. split; [done|].
  unfold filepath_of, os_path_join, startswith.
  rewrite (no_leading_separator _ Hsep).
  destruct (_ || _); [by left|by right].
Qed.

(** X11. A URL that names no file (its path ends in a slash, or in a segment
    without dot, or [urlparse] raises on it) gets, when no row names the
    item, the name [image_<index>.jpg]; the names of two such items with
    different indices differ. *)
Theorem nameless_urls_get_distinct_names ext url1 url2 i j :
  (∀ path, urlparse_path ext url1 = Return path →
           char_in "." (os_path_basename path) = false) →
  (∀ path, urlparse_path ext url2 = Return path →
           char_in "." (os_path_basename path) = false) →
  i ≠ j →
  get_filename ext url1 i None = "image_" +:+ pretty i +:+ ".jpg" ∧
  get_filename ext url2 j None = "image_" +:+ pretty j +:+ ".jpg" ∧
  get_filename ext url1 i None ≠ get_filename ext url2 j None.
Proof.
  intros H1 H2 Hne.
  assert (∀ url k,
            (∀ path, urlparse_path ext url = Return path →
                     char_in "." (os_path_basename path) = false) →
            get_filename ext url k None = "image_" +:+ pretty k +:+ ".jpg")
    as Hname.
  { intros url k Hno.
    destruct (urlparse_path ext url) as [path|e] eqn:Hpath.
    - apply (get_filename_of_nameless ext url k path Hpath).
      by apply Hno.
    - unfold get_filename. by rewrite Hpath. }
  rewrite (Hname url1 i H1), (Hname url2 j H2).
  split; [done|]. split; [done|]. intros Heq.
  apply (inj (String.app "image_")) in Heq.
  apply string_app_inj_r in Heq. by apply (inj pretty) in Heq.
Qed.

(** X12. What [load_excel_data] comes to.  The engine follows the extension, a
    name in [.xlsx] being read with openpyxl and one in [.xls] with xlrd.
    An exception of the reader is raised again as it is; a table without
    the URL column raises an error that lists the columns it has; otherwise
    the table is returned with the URLs of its rows, the rows without URL
    left out, so that the URLs and the rows without URL add up to the
    rows. *)
Theorem load_excel_data_outcomes self ext engine :
  (endswith (excel_path self) ".xlsx" = true ∧ engine = "openpyxl") ∨
  (endswith (excel_path self) ".xlsx" = false ∧
   endswith (excel_path self) ".xls" = true ∧ engine = "xlrd") →
  (∀ e, read_excel ext (excel_path self) engine = Raise e →
        load_excel_data self ext = Raise e) ∧
  (∀ df, read_excel ext (excel_path self) engine = Return df →
         url_column self ∉ columns df →
         load_excel_data self ext =
         Raise (Exception ("Column '" +:+ url_column self +:+
                           "' not found in Excel. Available columns: " +:+
                           String.concat ", " (columns df)))) ∧
  (∀ df, read_excel ext (excel_path self) engine = Return df →
         url_column self ∈ columns df →
         ∃ urls,
           load_excel_data self ext = Return (df, urls) ∧
           (length urls +
            length (filter (λ c, c = NaN) (df_column df (url_column self)))
            = length (rows df))%nat).
Proof.
  intros Hengine. unfold load_excel_data.
  assert ((if endswith (excel_path self) ".xlsx"
           then read_excel ext (excel_path self) "openpyxl"
           else if endswith (excel_path self) ".xls"
                then read_excel ext (excel_path self) "xlrd"
                else Raise (Exception
                              "Unsupported file format. Use .xlsx or .xls"))
          = read_excel ext (excel_path self) engine) as ->.
  { by destruct Hengine as [[-> ->]|(-> & -> & ->)]. }
  split; [|split].
  - by intros e ->.
  - intros df -> Hcol. simpl. by rewrite bool_decide_false.
  - intros df -> Hcol. simpl. rewrite bool_decide_true by done. simpl.
    eexists. split; [reflexivity|].
    unfold column_strings, df_column. rewrite length_map.
    rewrite <- (length_map (λ row, row_get (columns df) row (url_column self))
                  (rows df)).
    generalize (map (λ row, row_get (columns df) row (url_column self))
                  (rows df)).
    intros cells. induction cells as [|c cells IH]; [done|].
    rewrite !filter_cons. destruct c; simpl;
      repeat case_decide; simpl; try done; lia.
Qed.

(** X13. The tasks [download_all_images] prepares follow the URLs: the task at
    position [i] carries the [i]-th URL, the index [i], and the name
    [get_filename] gives to this URL and index.  Without a table no task
    can raise. *)
Theorem prepared_tasks_follow_urls self ext df urls tasks :
  prepare_tasks self ext df urls = Return tasks →
  length tasks = length urls ∧
  (∀ i t, tasks !! i = Some t →
     urls !! i = Some t.1.1 ∧ t.2 = i ∧
     ∃ df_row, t.1.2 = get_filename ext t.1.1 i df_row) ∧
  ∃ tasks', prepare_tasks self ext None urls = Return tasks'.
Proof.
  unfold prepare_tasks. intros Hprep.
  assert (∀ urls k tasks,
            prepare_tasks_from self ext df k urls = Return tasks →
            ∀ i t, tasks !! i = Some t →
              urls !! i = Some t.1.1 ∧ t.2 = (k + i)%nat ∧
              ∃ df_row, t.1.2 = get_filename ext t.1.1 (k + i) df_row)
    as Hgen.
  { clear. induction urls as [|url rest IH]; intros k tasks Hp i t Hi;
      simpl in Hp.
    - inversion Hp; subst. done.
    - unfold bind in Hp.
      destruct (match df with Some _ => _ | None => _ end) as [df_row|e];
        [|done].
      destruct (prepare_tasks_from self ext df (S k) rest) as [ts|e] eqn:Hr;
        [|done].
      inversion Hp; subst. destruct i as [|i]; simpl in Hi.
      + inversion Hi; subst. simpl. rewrite Nat.add_0_r. eauto.
      + destruct (IH _ _ Hr i t Hi) as (Hu & Hk & row & Hn).
        simpl. replace (k + S i)%nat with (S k + i)%nat by lia. eauto. }
  destruct (prepare_tasks_from_length self ext df urls 0 tasks Hprep)
    as (Hlen & _).
  split; [done|]. split.
  - intros i t Hi. apply (Hgen urls 0%nat tasks Hprep i t Hi).
  - clear. generalize 0%nat. induction urls as [|url rest IH]; intros k;
      simpl; [eauto|].
    destruct (IH (S k)) as [ts ->]. simpl. eauto.
Qed.

End FileNameProperties.

Lemma nameless_urls_get_distinct_names_witness :
  Downloader.get_filename Sample.web_images "http://a.example/" 0 None
    = "image_" +:+ pretty 0%nat +:+ ".jpg" ∧
  Downloader.get_filename Sample.web_images "http://b.example/gallery" 1 None
    = "image_" +:+ pretty 1%nat +:+ ".jpg" ∧
  Downloader.get_filename Sample.web_images "http://a.example/" 0 None
    ≠ Downloader.get_filename Sample.web_images "http://b.example/gallery" 1
        None.
Proof.
  apply (nameless_urls_get_distinct_names Sample.web_images
           "http://a.example/" "http://b.example/gallery" 0 1).
  - intros path Hpath. vm_compute in Hpath. by inversion Hpath.
  - intros path Hpath. vm_compute in Hpath. by inversion Hpath.
  - lia.
Defined.

Lemma load_excel_data_outcomes_witness :
  ∃ urls,
    Downloader.load_excel_data Sample.downloader Sample.web_images
      = Return (Sample.links, urls) ∧
    (length urls +
     length (filter (λ c, c = Downloader.NaN)
               (Downloader.df_column Sample.links "url"))
     = length (Downloader.rows Sample.links))%nat.
Proof.
  apply (proj2 (proj2 (load_excel_data_outcomes Sample.downloader
                         Sample.web_images "openpyxl"
                         (or_introl (conj eq_refl eq_refl))))
           Sample.links eq_refl).
  vm_compute. left.
Defined.

Lemma prepared_tasks_follow_urls_witness :
  length [("http://a.example/x.jpg", "x.jpg", 0%nat);
          ("http://b.example/x.jpg", "x.jpg", 1%nat)]
  = length Sample.links_urls.
Proof.
  apply (prepared_tasks_follow_urls Sample.downloader Sample.web_images
           (Some Sample.links) Sample.links_urls _ eq_refl).
Defined.

(** ** Calls of [download_image] one after the other *)

Section Calls.
Import Downloader.
Context (self : ExcelImageDownloader) (ext : Externals).


Lemma download_image_on_existing ext' w url filename index :
  os_path_exists w (filepath_of self filename) = true →
  download_image self ext' w url filename index
  = (Return (record index url filename "skipped" None), w).
Proof.
  intros Hex. unfold download_image, download_image_try. by rewrite Hex.
Qed.

(** X14. A call that did not fail, or that failed after it had opened its
    target, leaves the target on the disk: every later call for the same
    file name, whatever the network does then, is skipped and changes
    nothing.  So an item whose transfer broke is not downloaded again by a
    retry, and the part received stays in place. *)
Theorem later_call_is_skipped w url filename index r w1 ext' url' index' :
  download_image self ext w url filename index = (Return r, w1) →
  status r ≠ "failed" ∨ files w1 ≠ files w →
  download_image self ext' w1 url' filename index'
  = (Return (record index' url' filename "skipped" None), w1).
Proof.
  intros Hcall Hkept. apply download_image_on_existing.
  apply bool_decide_eq_true. revert Hcall.
  split_call self ext w url filename; intros Hcall;
    inversion Hcall; subst; clear Hcall; simpl in *;
    rewrite ?write_new_file, ?lookup_insert_eq; eauto;
    try (by apply bool_decide_eq_true in Hexists);
    destruct Hkept as [Hkept|Hkept]; by destruct Hkept.
Qed.

(** X15. A call creates its target only from a response of the server that had
    no error status and declared an image in its content type, and makes
    one request at most: none when it skips, one otherwise. *)
Theorem target_created_from_image_only w url filename index r w' :
  download_image self ext w url filename index = (Return r, w') →
  (requested w' = requested w ++
     (if os_path_exists w (filepath_of self filename) then [] else [url])) ∧
  csv_files w' = csv_files w ∧
  (files w' ≠ files w →
     ∃ response,
       requests_get ext url (timeout self) = Return response ∧
       http_error response = None ∧
       contains "image" (default "" (content_type response)) = true ∧
       open_wb ext (filepath_of self filename) = None).
Proof.
  split_call self ext w url filename; intros Hcall;
    inversion Hcall; subst; clear Hcall; simpl;
    rewrite ?app_nil_r;
    try (destruct (write_body_requested (filepath_of self filename)
                     (body response) 0
                     (create_file (filepath_of self filename)
                        (note_request url w))) as [-> ->]; simpl);
    (split; [done|]); (split; [done|]); intros Hne; try done; eauto.
Qed.

End Calls.

Lemma later_call_is_skipped_witness :
  ∃ w1,
    Downloader.download_image Sample.downloader Sample.web_broken_transfers
      Sample.empty_world "http://a.example/x.jpg" "x.jpg" 0
    = (Return (Downloader.record 0 "http://a.example/x.jpg" "x.jpg" "failed"
                 (Some "Connection broken")), w1) ∧
    Downloader.download_image Sample.downloader Sample.web_images
      w1 "http://a.example/x.jpg" "x.jpg" 0
    = (Return (Downloader.record 0 "http://a.example/x.jpg" "x.jpg"
                 "skipped" None), w1).
Proof.
  destruct (Downloader.download_image Sample.downloader
              Sample.web_broken_transfers Sample.empty_world
              "http://a.example/x.jpg" "x.jpg" 0) as [r w1] eqn:Hcall.
  assert (r = Return (Downloader.record 0 "http://a.example/x.jpg" "x.jpg"
                        "failed" (Some "Connection broken")) ∧
          Downloader.files w1 ≠ Downloader.files Sample.empty_world)
    as [-> Hfiles].
  { vm_compute in Hcall. inversion Hcall; subst. split; [done|].
    intros Heq.
    apply (f_equal (λ m : gmap string bytes,
                      m !! "downloaded_images/x.jpg")) in Heq.
    vm_compute in Heq. discriminate Heq. }
  exists w1. split; [reflexivity|].
  exact (later_call_is_skipped Sample.downloader Sample.web_broken_transfers
           Sample.empty_world "http://a.example/x.jpg" "x.jpg" 0%nat _ w1
           Sample.web_images "http://a.example/x.jpg" 0%nat Hcall
           (or_intror Hfiles)).
Defined.

Lemma target_created_from_image_only_witness :
  ∃ w',
    Downloader.requested w' = ["http://intranet/report.html"] ∧
    Downloader.files w' = Downloader.files Sample.empty_world.
Proof.
  destruct (Downloader.download_image Sample.downloader
              (Sample.web (λ _, Return
                 {| Downloader.http_error := None;
                    Downloader.content_type := Some "text/html";
                    Downloader.body := [[Byte.x3c]];
                    Downloader.body_error := None |}))
              Sample.empty_world "http://intranet/report.html" "report.html"
              0) as [r w'] eqn:Hcall.
  assert (∃ r', r = Return r') as [r' ->].
  { vm_compute in Hcall. inversion Hcall. eauto. }
  destruct (target_created_from_image_only _ _ _ _ _ _ _ _ Hcall)
    as (Hreq & _ & Himg).
  exists w'. split; [exact Hreq|].
  destruct (decide (Downloader.files w' = Downloader.files Sample.empty_world))
    as [Heq|Hne]; [exact Heq|].
  destruct (Himg Hne) as (response & Hget & _ & Hct & _).
  vm_compute in Hget. inversion Hget; subst response.
  vm_compute in Hct. discriminate Hct.
Defined.

(** ** More on the runs of the worker pool *)

Section PoolRuns.
Import Downloader Requests.
Context (self : ExcelImageDownloader) (ext : Externals).

Local Abbreviation step := (pool_step self ext).

Lemma thread_step_requests w th w' th' :
  is_done th = false →
  thread_step self ext w th = (w', th') →
  ∃ new, requested w' = requested w ++ new ∧
         requests_of_thread th' = requests_of_thread th ++ new.
Proof.
  intros Hnd Hstep.
  destruct th as [[[url filename] index]|[[url filename] index]
                 |[[url filename] index] response
                 |[[url filename] index] offset chunks stop|r];
    simpl in *; try discriminate.
  - destruct (os_path_exists _ _); inversion Hstep; subst;
      exists []; by rewrite app_nil_r.
  - unfold raise_for_status in Hstep.
    destruct (requests_get ext url (timeout self)) as [response|e];
      [destruct (http_error response); [|destruct (negb _)]|];
      rewrite ?download_image_except_failed in Hstep;
      inversion Hstep; subst; by exists [url].
  - destruct (open_wb _ _); rewrite ?download_image_except_failed in Hstep;
      inversion Hstep; subst; exists []; by rewrite app_nil_r.
  - destruct chunks as [|chunk rest]; [destruct stop|];
      rewrite ?download_image_except_failed in Hstep;
      inversion Hstep; subst; exists []; by rewrite app_nil_r.
Qed.

Lemma requests_of_single r :
  requests_of_results [r] = requests_of_thread (Done (Return r)).
Proof.
  unfold requests_of_results. simpl. rewrite filter_cons, filter_nil.
  case_bool_decide; case_decide; done.
Qed.

Lemma step_requests w0 p p' :
  step p p' →
  requested (world p) ≡ₚ requested w0 ++ pool_requests p →
  requested (world p') ≡ₚ requested w0 ++ pool_requests p'.
Proof.
  intros Hstep Hinv.
  destruct Hstep as [t q ws rs fs w Hfree
    | q ws1 th ws2 rs fs w w' th' Hnd Hth | q ws1 r ws2 rs fs w];
    unfold pool_requests in *; simpl in *.
  - rewrite map_app, concat_app. simpl. by rewrite !app_nil_r.
  - destruct (thread_step_requests _ _ _ _ Hnd Hth) as (new & -> & Hnew).
    rewrite Hinv. rewrite !map_app, !concat_app. simpl. rewrite Hnew.
    rewrite <- !app_assoc. do 3 apply Permutation_app_head.
    rewrite (Permutation_app_comm new). by rewrite <- app_assoc.
  - rewrite Hinv. unfold requests_of_results.
    rewrite filter_app, !map_app, !concat_app. simpl.
    fold (requests_of_results [r]). rewrite requests_of_single. simpl.
    rewrite <- !app_assoc. do 2 apply Permutation_app_head.
    generalize (if bool_decide (status r = "skipped") then [] else [url r]).
    intros new.
    rewrite (Permutation_app_comm new). by rewrite <- !app_assoc.
Qed.

Lemma rtc_step_requests w0 p p' :
  rtc step p p' →
  requested (world p) ≡ₚ requested w0 ++ pool_requests p →
  requested (world p') ≡ₚ requested w0 ++ pool_requests p'.
Proof.
  induction 1 as [|p p1 p2 Hstep _ IH]; [done|].
  intros Hi. apply IH. by eapply step_requests.
Qed.

Lemma count_unskipped (rs : list Outcome) :
  (length (filter (λ r, status r ≠ "skipped") rs) +
   count_status "skipped" rs = length rs)%nat.
Proof.
  unfold count_status. induction rs as [|r rs IH]; [done|].
  rewrite !filter_cons. repeat case_decide; simpl; try lia; done.
Qed.

(** X16. In every run each URL is requested once for each record that is not
    "skipped" and never for a skipped one: the requests made are, in some
    order, the URLs of the records that are not skipped. *)
Theorem one_request_per_unskipped_record df urls w results report w' :
  download_all_images self ext df urls w (Returned results report w') →
  requested w' ≡ₚ
    requested w ++ map url (filter (λ r, status r ≠ "skipped") results) ∧
  (length (requested w') + skipped report
   = length (requested w) + total report)%nat.
Proof.
  intros Hrun.
  inversion Hrun as [| | |tasks p Hprep Hw Hrtc Hfin Heq]; subst.
  assert (requested (world (submit_all tasks w))
          ≡ₚ requested w ++ pool_requests (submit_all tasks w)) as H0.
  { unfold pool_requests. simpl. by rewrite app_nil_r. }
  pose proof (rtc_step_requests w _ _ Hrtc H0) as Hinv.
  destruct Hfin as [_ Hws]. unfold pool_requests in Hinv.
  rewrite Hws in Hinv. simpl in Hinv.
  assert (requested
            match failed_downloads p with
            | [] => world p
            | _ :: _ => save_failed_downloads (failed_downloads p) (world p)
            end = requested (world p)) as -> by by destruct (failed_downloads p).
  split; [exact Hinv|].
  rewrite Hinv, length_app. unfold requests_of_results. rewrite length_map.
  simpl. pose proof (count_unskipped (results p)). lia.
Qed.




(** *** The files a run leaves *)

(** A worker writes into its own target only. *)
Lemma thread_step_target w th w' th' :
  thread_step self ext w th = (w', th') →
  files w' = files w ∨
  ∃ t content,
    thread_task th = Some t ∧
    files w' = <[task_target self t := content]> (files w).
Proof.
  intros Hstep.
  destruct th as [[[url filename] index]|[[url filename] index]
                 |[[url filename] index] response
                 |[[url filename] index] offset chunks stop|r];
    simpl in Hstep.
  - left. by destruct (os_path_exists _ _); inversion Hstep; subst.
  - left. unfold raise_for_status in Hstep.
    destruct (requests_get ext url (timeout self)) as [response|e];
      [destruct (http_error response); [|destruct (negb _)]|];
      by inversion Hstep; subst.
  - destruct (open_wb _ _); inversion Hstep; subst; [by left|].
    right. by eexists _, _.
  - destruct chunks as [|chunk rest]; [destruct stop|];
      inversion Hstep; subst; try by left.
    right. by eexists _, _.
  - left. by inversion Hstep; subst.
Qed.





(** *** The report *)

(** X19. The numbers of the report add up: every record received is counted
    once, as a success, a failure or a skip. *)
Theorem report_adds_up df urls w results report w' :
  download_all_images self ext df urls w (Returned results report w') →
  (total report = successful report + failed report + skipped report)%nat ∧
  total report = length results ∧
  Forall (λ r, status r ∈ ["success"; "failed"; "skipped"]) results.
Proof.
  intros Hrun.
  destruct (returned_run self ext df urls w results report w' Hrun)
    as (tasks & p & Hprep & Hrtc & _ & _ & -> & -> & _).
  assert (pool_kept self (submit_all tasks w)) as Hk0
    by (split; by apply Forall_nil).
  destruct (rtc_step_kept self ext _ _ Hrtc Hk0) as [_ Hrs].
  assert (Forall (λ r, status r ∈ ["success"; "failed"; "skipped"])
            (results p)) as Hst.
  { eapply Forall_impl; [exact Hrs|]. by intros r [? _]. }
  pose proof (count_status_total (results p) Hst). simpl.
  split; [lia|]. by split.
Qed.

(** *** One worker *)









End PoolRuns.

(** ** Distinct targets *)

Section Delivery.
Import Downloader Requests.
Context (self : ExcelImageDownloader) (ext : Externals).

Local Abbreviation step := (pool_step self ext).

Lemma thread_task_running th :
  is_done th = false → ∃ t, thread_task th = Some t.
Proof. destruct th; simpl; try done; eauto. Qed.

Lemma record_delivered_frame w w' r :
  files w' !! filepath_of self (filename r)
  = files w !! filepath_of self (filename r) →
  record_delivered self ext w r → record_delivered self ext w' r.
Proof.
  intros Heq Hr Hs. destruct (Hr Hs) as (response & Hget & Hf).
  exists response. by rewrite Heq.
Qed.

Lemma thread_delivered_frame w w' th :
  (∀ t, thread_task th = Some t →
        files w' !! task_target self t = files w !! task_target self t) →
  thread_delivered self ext w th → thread_delivered self ext w' th.
Proof.
  intros Heq.
  destruct th as [t|t|[[url filename] index] response
                 |[[url filename] index] offset chunks stop|[r|e]];
    simpl; try done.
  - intros (response & written & Hget & Hf & Hlen & Hbody).
    exists response, written. split; [done|]. split; [|done].
    pose proof (Heq _ eq_refl) as Heq'. unfold task_target in Heq'.
    simpl in Heq'. by rewrite Heq'.
  - apply record_delivered_frame. apply (Heq _ eq_refl).
Qed.

(** The step of a worker keeps what it holds of its target. *)
Lemma thread_step_delivered w th w' th' :
  thread_step self ext w th = (w', th') →
  thread_delivered self ext w th → thread_delivered self ext w' th'.
Proof.
  intros Hstep Hd.
  destruct th as [[[url filename] index]|[[url filename] index]
                 |[[url filename] index] response
                 |[[url filename] index] offset chunks stop|r];
    simpl in Hstep.
  - by destruct (os_path_exists _ _); inversion Hstep; subst.
  - unfold raise_for_status in Hstep.
    destruct (requests_get ext url (timeout self)) as [response|e] eqn:Hget;
      [destruct (http_error response); [|destruct (negb _)]|];
      rewrite ?download_image_except_failed in Hstep;
      by inversion Hstep; subst.
  - destruct (open_wb _ _); rewrite ?download_image_except_failed in Hstep;
      inversion Hstep; subst; [done|].
    simpl in *. exists response, []. split; [done|].
    by rewrite lookup_insert_eq.
  - destruct Hd as (response & written & Hget & Hf & Hlen & Hbody).
    destruct chunks as [|chunk rest]; [destruct stop|];
      rewrite ?download_image_except_failed in Hstep;
      inversion Hstep; subst; simpl in *; try done.
    + intros _. exists response. split; [done|].
      by rewrite app_nil_r in Hbody; subst.
    + exists response, (written ++ chunk). split; [done|].
      rewrite Hf. simpl. rewrite pwrite_at_end, lookup_insert_eq.
      split; [done|]. split; [by rewrite length_app|].
      by rewrite <- app_assoc.
  - by inversion Hstep; subst.
Qed.

(** In a list without two equal images, what is around an element has
    other images. *)
Lemma NoDup_fmap_around {A B} (f : A → B) (a b1 b2 c : list A) (x y : A) :
  NoDup (f <$> a ++ (b1 ++ x :: b2) ++ c) →
  y ∈ a ++ b1 ++ b2 → f y ≠ f x.
Proof.
  rewrite !fmap_app, fmap_cons, !NoDup_app, NoDup_cons.
  intros (_ & Ha & (_ & Hb1 & Hx & _) & _ & _) Hy Heq.
  rewrite !elem_of_app in Hy. destruct Hy as [Hy|[Hy|Hy]].
  - apply (Ha (f y)); [by apply list_elem_of_fmap; eauto|].
    rewrite Heq, !elem_of_app, elem_of_cons. auto.
  - apply (Hb1 (f y)); [by apply list_elem_of_fmap; eauto|].
    rewrite Heq. by left.
  - apply Hx. rewrite <- Heq. apply list_elem_of_fmap. eauto.
Qed.

Lemma step_delivered tasks p p' :
  NoDup (map (task_target self) tasks) → pool_inv tasks p →
  step p p' → pool_delivered self ext p → pool_delivered self ext p'.
Proof.
  intros Hnd Hinv Hstep [Hws Hrs].
  pose proof (inv_tasks _ _ Hinv) as Htasks. rewrite <- Htasks in Hnd.
  destruct Hstep as [t q ws rs fs w Hfree
    | q ws1 th ws2 rs fs w w' th' Hnd' Hth | q ws1 r ws2 rs fs w];
    unfold pool_delivered, pool_tasks in *; simpl in *.
  - split; [|done]. apply Forall_app. split; [done|]. by apply Forall_singleton.
  - apply Forall_app in Hws as [H1 H2]. apply Forall_cons in H2 as [H2 H3].
    destruct (thread_task_running th Hnd') as [t Ht].
    rewrite omap_app in Hnd. simpl in Hnd. rewrite Ht in Hnd.
    assert (∀ t2, t2 ∈ map outcome_task rs ++ omap thread_task ws1
                          ++ omap thread_task ws2 →
              files w' !! task_target self t2 = files w !! task_target self t2)
      as Hframe.
    { intros t2 Hin.
      pose proof (NoDup_fmap_around (task_target self) _ _ _ _ t t2 Hnd Hin)
        as Hne.
      destruct (thread_step_target self ext _ _ _ _ Hth)
        as [->|(t' & content & Ht' & ->)]; [done|].
      rewrite Ht in Ht'. inversion Ht'; subst t'.
      by rewrite lookup_insert_ne. }
    split.
    + apply Forall_app. split; [|apply Forall_cons; split].
      * apply Forall_forall. intros th2 Hin2.
        rewrite Forall_forall in H1. specialize (H1 th2 Hin2). revert H1.
        apply thread_delivered_frame. intros t2 Ht2. apply Hframe.
        rewrite !elem_of_app. right. left.
        apply list_elem_of_omap. eauto.
      * by eapply thread_step_delivered.
      * apply Forall_forall. intros th2 Hin2.
        rewrite Forall_forall in H3. specialize (H3 th2 Hin2). revert H3.
        apply thread_delivered_frame. intros t2 Ht2. apply Hframe.
        rewrite !elem_of_app. right. right.
        apply list_elem_of_omap. eauto.
    + apply Forall_forall. intros r Hin.
      rewrite Forall_forall in Hrs. specialize (Hrs r Hin). revert Hrs.
      apply record_delivered_frame.
      apply (Hframe (outcome_task r)).
      rewrite !elem_of_app. left. apply list_elem_of_fmap. eauto.
  - apply Forall_app in Hws as [H1 H2]. apply Forall_cons in H2 as [H2 H3].
    split; [by apply Forall_app|].
    apply Forall_app. split; [done|]. by apply Forall_singleton.
Qed.

Lemma rtc_step_delivered tasks p p' :
  NoDup (map (task_target self) tasks) →
  rtc step p p' → pool_inv tasks p →
  pool_delivered self ext p → pool_delivered self ext p'.
Proof.
  intros Hnd. induction 1 as [|p p1 p2 Hstep _ IH]; [done|].
  intros Hinv Hd. apply IH.
  - apply (rtc_step_inv self ext tasks p p1 Hinv). by apply rtc_once.
  - by eapply step_delivered.
Qed.

(** X21. When the tasks have distinct targets, the workers do not disturb one
    another: in every run, under every schedule, each record of success
    has its target holding the whole body the server answered its URL
    with. *)
Theorem distinct_targets_hold_whole_bodies df urls tasks w results report
    w' :
  prepare_tasks self ext df urls = Return tasks →
  NoDup (map (task_target self) tasks) →
  download_all_images self ext df urls w (Returned results report w') →
  Forall (λ r,
      status r = "success" →
      ∃ response,
        requests_get ext (url r) (timeout self) = Return response ∧
        files w' !! filepath_of self (filename r)
        = Some (concat (body response)))
    results.
Proof.
  intros Hprep Hnd Hrun.
  destruct (returned_run self ext df urls w results report w' Hrun)
    as (tasks' & p & Hprep' & Hrtc & _ & _ & -> & _ & Hfiles & _).
  rewrite Hprep in Hprep'. inversion Hprep'; subst tasks'.
  assert (pool_delivered self ext (submit_all tasks w)) as Hd0
    by (split; by apply Forall_nil).
  destruct (rtc_step_delivered tasks _ _ Hnd Hrtc (submit_all_inv tasks w) Hd0)
    as [_ Hrs].
  eapply Forall_impl; [exact Hrs|]. intros r Hr Hs.
  destruct (Hr Hs) as (response & Hget & Hf).
  exists response. by rewrite Hfiles.
Qed.

End Delivery.

(** ** The files the converter leaves *)

Section ConverterFiles.
Import Converter.
Context (ext : Externals) (output_folder output_format : string).

Local Abbreviation out := (output_path_of output_folder output_format).

(** One turn of the loop changes the output path of its input at most,
    and with overwrite not requested only when this path is absent. *)
Lemma bulk_convert_item_files overwrite c w x c' w' :
  bulk_convert_item ext output_folder output_format overwrite (c, w) x
    = Return (c', w') →
  (files w' = files w ∨ ∃ content, files w' = <[out x := content]> (files w))
  ∧ (overwrite = false → files w ⊆ files w').
Proof.
  unfold bulk_convert_item.
  destruct (path_exists w (out x) && negb overwrite) eqn:Hskip.
  - intros Heq. inversion Heq; subst. simpl. split; [by left|done].
  - assert (overwrite = false → files w !! out x = None) as Habs.
    { intros ->. rewrite andb_true_r in Hskip.
      apply bool_decide_eq_false in Hskip.
      by apply eq_None_not_Some. }
    destruct (pil ext (files w) x (get_pillow_format output_format))
      as [content|e residue] eqn:Hpil.
    + destruct (convert_image_saved ext w x (out x) output_format content Hpil)
        as (w1 & -> & Hf & _).
      intros Heq. inversion Heq; subst. rewrite Hf. split; [by eauto|].
      intros Hov. apply insert_subseteq_r; [by apply Habs|done].
    + destruct (convert_image_failed ext w x (out x) output_format e residue
                  Hpil) as (w1 & -> & Hf & _).
      intros Heq. inversion Heq; subst. rewrite Hf.
      destruct residue as [partial|]; (split; [by eauto|]); [|done].
      intros Hov. apply insert_subseteq_r; [by apply Habs|done].
Qed.

Lemma bulk_convert_loop_files overwrite image_files : ∀ c w c' w',
  bulk_convert_loop ext output_folder output_format overwrite image_files
    (c, w) = Return (c', w') →
  (∀ path, is_Some (files w' !! path) →
     is_Some (files w !! path) ∨ path ∈ map out image_files) ∧
  (∀ path, path ∉ map out image_files →
     files w' !! path = files w !! path) ∧
  (overwrite = false → files w ⊆ files w').
Proof.
  induction image_files as [|x rest IH]; intros c w c' w' Hloop.
  - inversion Hloop; subst. split; [by left|]. done.
  - rewrite bulk_convert_loop_cons in Hloop.
    destruct (bulk_convert_item ext output_folder output_format overwrite
                (c, w) x) as [[c1 w1]|e] eqn:Hitem; [|done].
    simpl in Hloop. destruct (IH _ _ _ _ Hloop) as (Hnew & Hsame & Hkeep).
    destruct (bulk_convert_item_files _ _ _ _ _ _ Hitem) as [Hf Hk].
    split; [|split].
    + intros path Hp. rewrite fmap_cons, elem_of_cons.
      destruct (Hnew path Hp) as [Hp1|Hin]; [|by auto].
      destruct Hf as [Heq|[content Heq]]; rewrite Heq in Hp1; [by left|].
      destruct (decide (path = out x)) as [->|Hne]; [by auto|].
      rewrite lookup_insert_ne in Hp1 by done. by left.
    + intros path. rewrite fmap_cons, not_elem_of_cons. intros [Hne Hin].
      rewrite (Hsame path Hin).
      destruct Hf as [Heq|[content Heq]]; rewrite Heq; [done|].
      by rewrite lookup_insert_ne.
    + intros Hov. etrans; [by apply Hk|by apply Hkeep].
Qed.

Lemma bulk_convert_files w input_folder recursive overwrite summary w' :
  bulk_convert ext w input_folder output_folder output_format recursive
    overwrite = Return (summary, w') →
  (∀ path,
     path ∉ map out (collect_image_files ext input_folder recursive) →
     files w' !! path = files w !! path) ∧
  (overwrite = false → files w ⊆ files w').
Proof.
  unfold bulk_convert.
  destruct (negb (dict_mem (lower output_format) supported_formats)).
  { intros Heq. inversion Heq; subst. done. }
  destruct (mkdir ext output_folder); [done|].
  destruct (collect_image_files ext input_folder recursive) as [|x l] eqn:Hl.
  { intros Heq. inversion Heq; subst. done. }
  match goal with
  | |- context [bulk_convert_loop _ _ _ _ _ (zero_counts, ?w0)] =>
      destruct (bulk_convert_loop ext output_folder output_format overwrite
                  (x :: l) (zero_counts, w0)) as [[c1 w1]|e] eqn:Hloop;
        [|done]
  end.
  simpl. intros Heq. inversion Heq; subst. simpl.
  destruct (bulk_convert_loop_files _ _ _ _ _ _ Hloop) as (_ & Hsame & Hkeep).
  split; [exact Hsame|exact Hkeep].
Qed.

(** X8. A call of [bulk_convert] changes nothing but the output paths of the
    files it collected; with overwrite not requested it changes no file
    that was there, so a conversion into the folder of the inputs leaves
    every input as it was. *)
Theorem bulk_convert_keeps_existing_files w input_folder recursive overwrite
    summary w' :
  bulk_convert ext w input_folder output_folder output_format recursive
    overwrite = Return (summary, w') →
  (∀ path,
     path ∉ map (output_path_of output_folder output_format)
              (collect_image_files ext input_folder recursive) →
     files w' !! path = files w !! path) ∧
  (overwrite = false → files w ⊆ files w').
Proof.
  intros Hcall.
  destruct (bulk_convert_files _ _ _ _ _ _ Hcall) as [Hsame Hkeep].
  by split.
Qed.

End ConverterFiles.

Section ConverterCommandLine.
Import Converter CommandLine.


End ConverterCommandLine.

(** ** [main] of the downloader *)

Section MainRuns.
Import Downloader Main.
Context (self : ExcelImageDownloader) (ext : Externals).

(** What a call of [download_image] does to the state. *)
Lemma download_image_effects w url filename index :
  ∃ r w',
    download_image self ext w url filename index = (Return r, w') ∧
    outcome_task r = (url, filename, index) ∧
    files w ⊆ files w' ∧ csv_files w' = csv_files w ∧
    (present w (filepath_of self filename) → status r = "skipped" ∧ w' = w).
Proof.
  split_call self ext w url filename; eexists _, _;
    (split; [reflexivity|]); (split; [reflexivity|]);
    try apply os_path_exists_absent in Hexists;
    rewrite ?write_new_file;
    try (destruct (write_body_requested (filepath_of self filename)
                     (body response) 0
                     (create_file (filepath_of self filename)
                        (note_request url w))) as [_ ->]);
    simpl; (split; [|split; [done|]]); try done;
    try (apply insert_subseteq_r; [by apply eq_None_not_Some|done]).
Qed.

(** X22. The retry calls [download_image] once for each failed record, in
    their order, and cannot raise.  It leaves the retry list as the run
    wrote it, even for the items it downloads, and it changes no file that
    is there: an item whose target exists, as after a transfer that broke,
    is skipped, its partial file left as it is. *)
Theorem retry_keeps_files_and_list failed : ∀ w,
  ∃ logged w',
    retry self ext failed w = (Return logged, w') ∧
    map outcome_task logged = map outcome_task failed ∧
    files w ⊆ files w' ∧ csv_files w' = csv_files w ∧
    Forall2 (λ item r,
               present w (filepath_of self (filename item)) →
               status r = "skipped")
      failed logged.
Proof.
  induction failed as [|item rest IH]; intros w; simpl.
  - eexists _, _. split; [reflexivity|]. by repeat split.
  - destruct (download_image_effects w (url item) (filename item)
                (index item)) as (r & w1 & -> & Ht & Hsub & Hcsv & Hskip).
    destruct (IH w1) as (logged & w' & -> & Hts & Hsub' & Hcsv' & Hall).
    eexists _, _. split; [reflexivity|]. simpl.
    split; [by rewrite Ht, Hts|].
    split; [by etrans|]. split; [by rewrite Hcsv'|].
    constructor; [by intros Hp; apply Hskip|].
    eapply Forall2_impl; [exact Hall|]. intros item' r' Himp Hp.
    apply Himp. destruct Hp as [content Hp]. exists content.
    by eapply lookup_weaken.
Qed.



End MainRuns.

(** ** The further theorems at concrete inputs *)

(** [out/a.jpg] exists: of the two files the second only is handed to the
    imaging library. *)
Lemma codec_called_once_per_unskipped_file_witness :
  ∃ c' w' handed,
    Converter.bulk_convert_loop Sample.studio "out" "jpg" false
      ["in/a.jpg"; "in/b.png"] (Converter.zero_counts, Sample.disk_with_a)
    = Return (c', w') ∧
    handed `sublist_of` ["in/a.jpg"; "in/b.png"] ∧
    Converter.calls w' =
      Converter.calls Sample.disk_with_a ++
      map (λ x, (x, Converter.get_pillow_format "jpg")) handed ∧
    (length ["in/a.jpg"; "in/b.png"]
       + Converter.skipped_count Converter.zero_counts
     = length handed + Converter.skipped_count c')%nat.
Proof.
  destruct (Converter.bulk_convert_loop Sample.studio "out" "jpg" false
              ["in/a.jpg"; "in/b.png"]
              (Converter.zero_counts, Sample.disk_with_a))
    as [[c' w']|e] eqn:Hloop;
    [|exfalso; vm_compute in Hloop; discriminate Hloop].
  destruct (codec_called_once_per_unskipped_file Sample.studio "out" "jpg"
              false ["in/a.jpg"; "in/b.png"] Converter.zero_counts
              Sample.disk_with_a c' w' Hloop)
    as (handed & Hsub & Hcalls & _ & Hskipped & _).
  exists c', w', handed. done.
Defined.

(** Two pictures named [a] give one output path: one conversion. *)
Lemma one_conversion_per_output_path_witness :
  ∃ c' w',
    Converter.bulk_convert_loop Sample.studio "out" "jpg" false
      ["in/a.jpg"; "in/a.png"] (Converter.zero_counts, Sample.empty_disk)
    = Return (c', w') ∧
    (Converter.converted_count c' ≤
       Converter.converted_count Converter.zero_counts +
       size (list_to_set
               (map (Converter.output_path_of "out" "jpg")
                  ["in/a.jpg"; "in/a.png"])
             ∖ dom (Converter.files Sample.empty_disk) : gset string))%nat.
Proof.
  destruct (Converter.bulk_convert_loop Sample.studio "out" "jpg" false
              ["in/a.jpg"; "in/a.png"]
              (Converter.zero_counts, Sample.empty_disk))
    as [[c' w']|e] eqn:Hloop;
    [|exfalso; vm_compute in Hloop; discriminate Hloop].
  exists c', w'. split; [reflexivity|].
  exact (one_conversion_per_output_path Sample.studio "out" "jpg"
           ["in/a.jpg"; "in/a.png"] Converter.zero_counts Sample.empty_disk
           c' w' Hloop).
Defined.

(** The folder of the inputs as output folder, [out/a.jpg] there: the call
    leaves it as it is. *)
Lemma bulk_convert_keeps_existing_files_witness :
  ∃ summary w',
    Converter.bulk_convert Sample.studio Sample.disk_with_a "in" "out" "jpg"
      false false = Return (summary, w') ∧
    Converter.files Sample.disk_with_a ⊆ Converter.files w'.
Proof.
  destruct (Converter.bulk_convert Sample.studio Sample.disk_with_a
              "in" "out" "jpg" false false) as [[summary w']|e] eqn:Hrun;
    [|exfalso; vm_compute in Hrun; discriminate Hrun].
  exists summary, w'. split; [reflexivity|].
  exact (proj2 (bulk_convert_keeps_existing_files Sample.studio "out" "jpg"
                  Sample.disk_with_a "in" false false summary w' Hrun)
           eq_refl).
Defined.


(** The run over the sheet [links.xlsx]: the second link has the target of
    the first, so one request is made and one record is skipped. *)
Lemma one_request_per_unskipped_record_witness :
  ∃ results report w',
    Downloader.download_all_images Sample.downloader Sample.web_images
      (Some Sample.links) Sample.links_urls Sample.empty_world
      (Downloader.Returned results report w') ∧
    (length (Downloader.requested w') + Downloader.skipped report
     = length (Downloader.requested Sample.empty_world)
       + Downloader.total report)%nat.
Proof.
  set (tasks := [("http://a.example/x.jpg", "x.jpg", 0%nat);
                 ("http://b.example/x.jpg", "x.jpg", 1%nat)]
                : list Downloader.Task).
  destruct (Downloader.run_in_order Sample.downloader Sample.web_images tasks
              (Downloader.submit_all tasks Sample.empty_world))
    as [p|e] eqn:Hrun; [|exfalso; vm_compute in Hrun; discriminate Hrun].
  pose proof (run_in_order_sound Sample.downloader Sample.web_images
                (Some Sample.links) Sample.links_urls Sample.empty_world
                tasks p eq_refl eq_refl Hrun) as Hsound.
  unfold Downloader.after_pool in Hsound.
  eexists _, _, _. split; [exact Hsound|].
  exact (proj2 (one_request_per_unskipped_record Sample.downloader
                  Sample.web_images _ _ _ _ _ _ Hsound)).
Defined.



(** The report of the run over the sheet adds up. *)
Lemma report_adds_up_witness :
  ∃ results report w',
    Downloader.download_all_images Sample.downloader Sample.web_images
      (Some Sample.links) Sample.links_urls Sample.empty_world
      (Downloader.Returned results report w') ∧
    (Downloader.total report =
       Downloader.successful report + Downloader.failed report
       + Downloader.skipped report)%nat.
Proof.
  set (tasks := [("http://a.example/x.jpg", "x.jpg", 0%nat);
                 ("http://b.example/x.jpg", "x.jpg", 1%nat)]
                : list Downloader.Task).
  destruct (Downloader.run_in_order Sample.downloader Sample.web_images tasks
              (Downloader.submit_all tasks Sample.empty_world))
    as [p|e] eqn:Hrun; [|exfalso; vm_compute in Hrun; discriminate Hrun].
  pose proof (run_in_order_sound Sample.downloader Sample.web_images
                (Some Sample.links) Sample.links_urls Sample.empty_world
                tasks p eq_refl eq_refl Hrun) as Hsound.
  unfold Downloader.after_pool in Hsound.
  eexists _, _, _. split; [exact Hsound|].
  exact (proj1 (report_adds_up Sample.downloader Sample.web_images
                  _ _ _ _ _ _ Hsound)).
Defined.



(** Five links with five targets, two hosts down: the three records of
    success have their files whole. *)
Lemma distinct_targets_hold_whole_bodies_witness :
  ∃ results report w',
    Downloader.download_all_images Sample.downloader Sample.web_two_down
      None Sample.five_urls Sample.empty_world
      (Downloader.Returned results report w') ∧
    Forall (λ r,
        Downloader.status r = "success" →
        ∃ response,
          Downloader.requests_get Sample.web_two_down (Downloader.url r)
            (Downloader.timeout Sample.downloader) = Return response ∧
          Downloader.files w'
            !! Downloader.filepath_of Sample.downloader (Downloader.filename r)
          = Some (concat (Downloader.body response)))
      results.
Proof.
  set (tasks := [("http://a.example/1.jpg", "1.jpg", 0%nat);
                 ("http://down.example/2.jpg", "2.jpg", 1%nat);
                 ("http://a.example/3.jpg", "3.jpg", 2%nat);
                 ("http://down.example/4.jpg", "4.jpg", 3%nat);
                 ("http://a.example/5.jpg", "5.jpg", 4%nat)]
                : list Downloader.Task).
  assert (Downloader.prepare_tasks Sample.downloader Sample.web_two_down
            None Sample.five_urls = Return tasks) as Hprep by reflexivity.
  assert (NoDup (map (Downloader.task_target Sample.downloader) tasks))
    as Hnd.
  { apply (bool_decide_unpack _). vm_compute. exact I. }
  destruct (Downloader.run_in_order Sample.downloader Sample.web_two_down
              tasks (Downloader.submit_all tasks Sample.empty_world))
    as [p|e] eqn:Hrun; [|exfalso; vm_compute in Hrun; discriminate Hrun].
  pose proof (run_in_order_sound Sample.downloader Sample.web_two_down
                None Sample.five_urls Sample.empty_world tasks p
                Hprep eq_refl Hrun) as Hsound.
  unfold Downloader.after_pool in Hsound.
  eexists _, _, _. split; [exact Hsound|].
  exact (distinct_targets_hold_whole_bodies Sample.downloader
           Sample.web_two_down None Sample.five_urls tasks
           Sample.empty_world _ _ _ Hprep Hnd Hsound).
Defined.
